(** * nexmo-python: call-control documents (NCCO), request and response side

    A shallow embedding of [nexmo/request.py] and [nexmo/response.py]
    (Python 2), with the properties of the specification proved or
    refuted on it.

    Layout:
    - [PyStr]    : the byte-string methods the code calls ([split], [title],
                   [lower]);
    - [PyVal]    : the Python values that travel through the option bags;
    - [Json]     : what [json.dumps] does with such values (tree and text);
    - [Request]  : [RequestAction] and its six kinds, [RequestJsonEncoder],
                   [Request];
    - [Eff]      : state passing with exceptions, and the object store;
    - [Response] : [ResponseAction] with its class-level option store;
    - [Spec]     : the specification's own wording, where the code is
                   compared with it;
    - [Inv]      : the invariants and sample data of the proofs;
    - [Ext]      : further notions, and the response-side document.
    The properties follow, claim by claim (C1 to C10), and after them
    further properties of the code (X1 to X20). *)

From Stdlib Require Import ZArith String Ascii List Bool Lia DecimalString.
From stdpp Require Import base list.
Import ListNotations.

Open Scope string_scope.
Set Warnings "-register-all".

(* ===================================================================== *)
(** * Byte strings *)
(* ===================================================================== *)

Module PyStr.

(** Python 2 [str] methods work on bytes and, in the C locale, treat only
    the ASCII letters as cased. *)
Definition is_lower (c : ascii) : bool :=
  let n := nat_of_ascii c in (97 <=? n)%nat && (n <=? 122)%nat.

Definition is_upper (c : ascii) : bool :=
  let n := nat_of_ascii c in (65 <=? n)%nat && (n <=? 90)%nat.

Definition to_upper (c : ascii) : ascii :=
  if is_lower c then ascii_of_nat (nat_of_ascii c - 32) else c.

Definition to_lower (c : ascii) : ascii :=
  if is_upper c then ascii_of_nat (nat_of_ascii c + 32) else c.

(** [s.lower()] *)
Fixpoint lower (s : string) : string :=
  match s with
  | EmptyString => EmptyString
  | String c r => String (to_lower c) (lower r)
  end.

(** [s.title()]: [previous_is_cased] is the flag of CPython's
    [string_title]; a lower-case letter that does not follow a letter is
    upper-cased, an upper-case letter that follows a letter is
    lower-cased. *)
Fixpoint title_from (previous_is_cased : bool) (s : string) : string :=
  match s with
  | EmptyString => EmptyString
  | String c r =>
      if is_lower c then
        String (if previous_is_cased then c else to_upper c) (title_from true r)
      else if is_upper c then
        String (if previous_is_cased then to_lower c else c) (title_from true r)
      else String c (title_from false r)
  end.

Definition title (s : string) : string := title_from false s.

(** [s.split(sep)] for a one-character separator: never empty. *)
Fixpoint split (sep : ascii) (s : string) : list string :=
  match s with
  | EmptyString => [EmptyString]
  | String c r =>
      if Ascii.eqb c sep then EmptyString :: split sep r
      else match split sep r with
           | w :: ws => String c w :: ws
           | [] => [String c EmptyString]
           end
  end.

(** [''.join(ws)] *)
Definition join_empty (ws : list string) : string :=
  fold_right String.append EmptyString ws.

(** [sep.join(ws)] for a one-character separator. *)
Fixpoint join (sep : ascii) (ws : list string) : string :=
  match ws with
  | [] => EmptyString
  | [w] => w
  | w :: rest => w ++ String sep (join sep rest)
  end.

(** The character [sep] does not occur in [s]. *)
Fixpoint free_of (sep : ascii) (s : string) : bool :=
  match s with
  | EmptyString => true
  | String c r => negb (Ascii.eqb c sep) && free_of sep r
  end.

(** "First character upper-cased", the wording of the specification. *)
Definition upper_first (s : string) : string :=
  match s with
  | EmptyString => EmptyString
  | String c r => String (to_upper c) r
  end.

(** The characters on which [title_from] leaves a string alone: a
    lower-case letter must follow a letter, an upper-case one must not. *)
Fixpoint title_fixed_from (previous_is_cased : bool) (s : string) : bool :=
  match s with
  | EmptyString => true
  | String c r =>
      if is_lower c then previous_is_cased && title_fixed_from true r
      else if is_upper c then negb previous_is_cased && title_fixed_from true r
      else title_fixed_from false r
  end.

(** A segment on which title-casing only touches the first character. *)
Definition plain_segment (s : string) : bool :=
  match s with
  | EmptyString => true
  | String c r => title_fixed_from (is_lower c || is_upper c) r
  end.

End PyStr.

(* ===================================================================== *)
(** * Python values and exceptions *)
(* ===================================================================== *)

Module PyVal.

(** Hashable values, as they occur as keys of a [dict]. *)
Inductive pykey : Type :=
| KNone
| KBool (b : bool)
| KInt (z : Z)
| KStr (s : string)
| KTuple (items : list pykey).

(** The values that are put in option bags: [None], [bool], [int]/[long],
    [str] (ASCII text), [list], [tuple] and [dict].  A [dict] is the list of
    its items in iteration order (Python 2 leaves that order to the hash
    table; the model fixes it to insertion order).  Floats and instances of
    other classes are left out. *)
Inductive pyval : Type :=
| VNone
| VBool (b : bool)
| VInt (z : Z)
| VStr (s : string)
| VList (items : list pyval)
| VTuple (items : list pyval)
| VDict (items : list (pykey * pyval)).

(** The built-in classes of these values. *)
Inductive pyclass : Type :=
| CNoneType | CBool | CInt | CStr | CList | CTuple | CDict.

(** The second argument of [isinstance]: a class, or any other value (which
    is what [Stream.__init__] passes on as [sub_type]). *)
Inductive subtype : Type :=
| SubClass (c : pyclass)
| SubValue (v : pyval).

(** The exceptions that can surface.  The two [ValueError]s and the
    [ImportError] are raised by the code itself; their payload is what the
    message is formatted from:
    - [ValueError_list_of name sub_type]:
      ['"{name}" is must be a list of "{type}"'];
    - [ValueError_not_list name cls]:
      ['"{name}" is must be a list, but got "{type}" instead.'];
    - [ValueError_not_dict name cls]:
      ['"{name}" is must be a dict, but got "{type}" instead.'];
    - [ImportError_HttpResponse]: ['This method requires HttpResponse
      class, make sure django is installed.'].
    The [TypeError]s come from the interpreter and the [json] library:
    iterating a value that is not iterable, [isinstance] with a second
    argument that is no class, a keyword argument that collides with a
    parameter, a positional argument too many, and a dictionary key that
    JSON cannot take.  [NoSuchObject] belongs to the model only: a
    reference outside the object store, which no Python program holds. *)
Inductive exn : Type :=
| ValueError_list_of (name : string) (sub_type : subtype)
| ValueError_not_list (name : string) (cls : pyclass)
| ValueError_not_dict (name : string) (cls : pyclass)
| ImportError_HttpResponse
| TypeError_not_iterable (cls : pyclass)
| TypeError_isinstance_arg2
| TypeError_multiple_values (name : string)
| TypeError_positional (function : string)
| TypeError_key_not_string
| NoSuchObject.


(** [[f(x) for x in l]] for an [f] that may raise: the results, or the
    first exception. *)
Definition all_or_first_error {A B : Type} (f : A -> exn + B)
  : list A -> exn + list B :=
  fix go (l : list A) : exn + list B :=
    match l with
    | [] => inr []
    | x :: r =>
        match f x with
        | inl e => inl e
        | inr y => match go r with
                   | inl e => inl e
                   | inr ys => inr (y :: ys)
                   end
        end
    end.

(** [type(v)] *)
Definition class_of (v : pyval) : pyclass :=
  match v with
  | VNone => CNoneType
  | VBool _ => CBool
  | VInt _ => CInt
  | VStr _ => CStr
  | VList _ => CList
  | VTuple _ => CTuple
  | VDict _ => CDict
  end.

Definition pyclass_eqb (a b : pyclass) : bool :=
  match a, b with
  | CNoneType, CNoneType | CBool, CBool | CInt, CInt | CStr, CStr
  | CList, CList | CTuple, CTuple | CDict, CDict => true
  | _, _ => false
  end.

(** [issubclass(a, b)]: [bool] is a subclass of [int]. *)
Definition issubclass (a b : pyclass) : bool :=
  pyclass_eqb a b ||
  match a, b with CBool, CInt => true | _, _ => false end.

(** [isinstance(v, t)].  An empty tuple of classes is accepted and matches
    nothing; any other non-class raises. *)
Definition isinstance (v : pyval) (t : subtype) : exn + bool :=
  match t with
  | SubClass c => inr (issubclass (class_of v) c)
  | SubValue (VTuple []) => inr false
  | SubValue _ => inl TypeError_isinstance_arg2
  end.

(** [bool(v)] *)
Definition truthy (v : pyval) : bool :=
  match v with
  | VNone => false
  | VBool b => b
  | VInt z => negb (z =? 0)%Z
  | VStr s => negb (String.eqb s EmptyString)
  | VList l | VTuple l => match l with [] => false | _ => true end
  | VDict d => match d with [] => false | _ => true end
  end.

Definition is_None (v : pyval) : bool :=
  match v with VNone => true | _ => false end.

(** A key seen as a value (what iterating over a [dict] yields). *)
Fixpoint key_val (k : pykey) : pyval :=
  match k with
  | KNone => VNone
  | KBool b => VBool b
  | KInt z => VInt z
  | KStr s => VStr s
  | KTuple ks => VTuple (List.map key_val ks)
  end.

(** The characters of a string, each as a one-character string. *)
Fixpoint chars (s : string) : list pyval :=
  match s with
  | EmptyString => []
  | String c r => VStr (String c EmptyString) :: chars r
  end.

(** [iter(v)], run to the end. *)
Definition py_iter (v : pyval) : exn + list pyval :=
  match v with
  | VStr s => inr (chars s)
  | VList l | VTuple l => inr l
  | VDict d => inr (List.map (fun kv => key_val (fst kv)) d)
  | VNone | VBool _ | VInt _ => inl (TypeError_not_iterable (class_of v))
  end.

(** [str(b)] for a [bool]. *)
Definition str_bool (b : bool) : string := if b then "True" else "False".

(** [str(z)] for an [int] or [long]. *)
Definition str_int (z : Z) : string := NilZero.string_of_int (Z.to_int z).

(** ** Dictionaries with string keys (keyword arguments, option bags) *)

Definition dict : Type := list (string * pyval).

(** [d[k]] as a lookup *)
Fixpoint dict_get (k : string) (d : dict) : option pyval :=
  match d with
  | [] => None
  | (k', v) :: r => if String.eqb k k' then Some v else dict_get k r
  end.

(** [d[k] = v]: an existing key keeps its place, a new one goes last. *)
Fixpoint dict_set (k : string) (v : pyval) (d : dict) : dict :=
  match d with
  | [] => [(k, v)]
  | (k', v') :: r =>
      if String.eqb k k' then (k, v) :: r else (k', v') :: dict_set k v r
  end.

Definition dict_keys (d : dict) : list string := List.map fst d.

Definition has_key (k : string) (d : dict) : bool :=
  match dict_get k d with Some _ => true | None => false end.

(** The dictionary as a value. *)
Definition as_VDict (d : dict) : pyval :=
  VDict (List.map (fun kv => (KStr (fst kv), snd kv)) d).

End PyVal.

(* ===================================================================== *)
(** * The [json] library (Python 2.7), as far as the code reaches it *)
(* ===================================================================== *)

Module Json.
Import PyVal.

(** The document that the encoder writes, before it is laid out as text. *)
Inductive json : Type :=
| JNull
| JTrue
| JFalse
| JNum (z : Z)
| JStr (s : string)
| JArr (items : list json)
| JObj (members : list (string * json)).

(** ** Keys *)

(** The name a key gets in a JSON object: strings as they are, [True],
    [False], [None] and integers by their JSON spelling; anything else is
    refused ([skipkeys] is off). *)
Definition key_name (k : pykey) : exn + string :=
  match k with
  | KStr s => inr s
  | KBool true => inr "true"
  | KBool false => inr "false"
  | KNone => inr "null"
  | KInt z => inr (str_int z)
  | KTuple _ => inl TypeError_key_not_string
  end.

(** Python 2 orders values of different types: [None] first, then the
    numbers ([bool] counts as [int]), then the other types by type name
    (["str"] before ["tuple"]). *)
Definition key_rank (k : pykey) : nat :=
  match k with
  | KNone => 0
  | KBool _ | KInt _ => 1
  | KStr _ => 2
  | KTuple _ => 3
  end.

Definition key_num (k : pykey) : Z :=
  match k with
  | KBool true => 1
  | KInt z => z
  | _ => 0
  end.

(** [cmp(a, b)] on keys; tuples compare item by item, a proper prefix
    first. *)
Fixpoint key_compare (a b : pykey) : comparison :=
  match a, b with
  | KStr s, KStr t => String.compare s t
  | KTuple xs, KTuple ys =>
      (fix go (xs ys : list pykey) : comparison :=
         match xs, ys with
         | [], [] => Eq
         | [], _ :: _ => Lt
         | _ :: _, [] => Gt
         | x :: xs', y :: ys' =>
             match key_compare x y with
             | Eq => go xs' ys'
             | c => c
             end
         end) xs ys
  | _, _ =>
      match Nat.compare (key_rank a) (key_rank b) with
      | Eq => Z.compare (key_num a) (key_num b)
      | c => c
      end
  end.

Definition key_le (a b : pykey) : bool :=
  match key_compare a b with Gt => false | _ => true end.

(** [sorted(dct.items(), key=lambda kv: kv[0])]: a stable sort on keys. *)
Fixpoint insert_item {A : Type} (x : pykey * A) (l : list (pykey * A))
  : list (pykey * A) :=
  match l with
  | [] => [x]
  | y :: r => if key_le (fst x) (fst y) then x :: y :: r
              else y :: insert_item x r
  end.

Definition sorted_items {A : Type} (l : list (pykey * A)) : list (pykey * A) :=
  fold_right insert_item [] l.

(** Every dictionary of a value with its items in sorted order: the order
    in which an encoder with [sort_keys] visits them. *)
Fixpoint sort_dicts (v : pyval) : pyval :=
  match v with
  | VList l => VList (List.map sort_dicts l)
  | VTuple l => VTuple (List.map sort_dicts l)
  | VDict d =>
      VDict (sorted_items (List.map (fun kv => (fst kv, sort_dicts (snd kv))) d))
  | _ => v
  end.

(** ** From values to the JSON document *)

(** What [JSONEncoder] does with the values it knows: [None], [True],
    [False], numbers and strings become the matching tokens, lists and
    tuples arrays, dictionaries objects (items in iteration order).  The
    first item that fails ends the encoding. *)
Fixpoint encode (v : pyval) : exn + json :=
  match v with
  | VNone => inr JNull
  | VBool true => inr JTrue
  | VBool false => inr JFalse
  | VInt z => inr (JNum z)
  | VStr s => inr (JStr s)
  | VList l | VTuple l =>
      match all_or_first_error encode l with
      | inl e => inl e
      | inr js => inr (JArr js)
      end
  | VDict d =>
      match
        all_or_first_error
          (fun kv =>
             match key_name (fst kv) with
             | inl e => inl e
             | inr n => match encode (snd kv) with
                        | inl e => inl e
                        | inr j => inr (n, j)
                        end
             end) d
      with
      | inl e => inl e
      | inr ms => inr (JObj ms)
      end
  end.

(** The encoder with its [sort_keys] option. *)
Definition encode_with (sort_keys : bool) (v : pyval) : exn + json :=
  encode (if sort_keys then sort_dicts v else v).

(** ** From the JSON document to text *)

Definition quote : ascii := "034"%char.
Definition newline : ascii := "010"%char.

Definition hex_digit (n : nat) : ascii :=
  match n with
  | 0 => "0" | 1 => "1" | 2 => "2" | 3 => "3" | 4 => "4" | 5 => "5"
  | 6 => "6" | 7 => "7" | 8 => "8" | 9 => "9" | 10 => "a" | 11 => "b"
  | 12 => "c" | 13 => "d" | 14 => "e" | _ => "f"
  end%char.

(** One character of a string, as [encode_basestring_ascii] writes it
    ([ensure_ascii] is on): the backslash and the quote are escaped, the
    usual control characters have their letter, and whatever else lies
    outside [' '..'~'] is written as [\u00xx].  (A character above 127 is
    taken as the code point of that number, as in a [unicode] string.) *)
Definition escape_char (c : ascii) : string :=
  let n := nat_of_ascii c in
  if Ascii.eqb c "\" then "\\"
  else if Ascii.eqb c quote then String "\" (String quote EmptyString)
  else if (n =? 8)%nat then "\b"
  else if (n =? 12)%nat then "\f"
  else if (n =? 10)%nat then "\n"
  else if (n =? 13)%nat then "\r"
  else if (n =? 9)%nat then "\t"
  else if (n <? 32)%nat || (126 <? n)%nat then
    "\u00" ++ String (hex_digit (n / 16)) (String (hex_digit (n mod 16)) EmptyString)
  else String c EmptyString.

Fixpoint escape (s : string) : string :=
  match s with
  | EmptyString => EmptyString
  | String c r => escape_char c ++ escape r
  end.

Definition encode_basestring_ascii (s : string) : string :=
  String quote (escape s ++ String quote EmptyString).

Fixpoint spaces (n : nat) : string :=
  match n with
  | O => EmptyString
  | S m => String " " (spaces m)
  end.

(** ['\n' + ' ' * (indent * level)], or nothing without [indent]. *)
Definition newline_indent (indent : option nat) (level : nat) : string :=
  match indent with
  | Some w => String newline (spaces (w * level))
  | None => EmptyString
  end.

(** The layout of [_make_iterencode], with the default separators [', ']
    and [': '] (which Python 2.7 keeps when it indents, so an indented line
    ends in a blank after its comma). *)
Fixpoint render (indent : option nat) (level : nat) (j : json) : string :=
  match j with
  | JNull => "null"
  | JTrue => "true"
  | JFalse => "false"
  | JNum z => str_int z
  | JStr s => encode_basestring_ascii s
  | JArr [] => "[]"
  | JArr items =>
      "[" ++ newline_indent indent (S level)
      ++ String.concat (", " ++ newline_indent indent (S level))
           (List.map (render indent (S level)) items)
      ++ newline_indent indent level ++ "]"
  | JObj [] => "{}"
  | JObj members =>
      "{" ++ newline_indent indent (S level)
      ++ String.concat (", " ++ newline_indent indent (S level))
           (List.map (fun m => encode_basestring_ascii (fst m) ++ ": "
                               ++ render indent (S level) (snd m)) members)
      ++ newline_indent indent level ++ "}"
  end.


(** The member of an object with a given name (the first, if several). *)
Fixpoint member (name : string) (members : list (string * json)) : option json :=
  match members with
  | [] => None
  | (n, j) :: r => if String.eqb name n then Some j else member name r
  end.

End Json.

(* ===================================================================== *)
(** * State and exceptions *)
(* ===================================================================== *)

Module Eff.
Import PyVal.

(** A computation over a state [St] that returns an [A] or raises; the
    state it leaves behind is kept in both cases, as an exception does not
    undo the assignments made before it. *)
Definition M (St A : Type) : Type := St -> St * (exn + A).

Definition ret {St A : Type} (a : A) : M St A := fun s => (s, inr a).

Definition raise {St A : Type} (e : exn) : M St A := fun s => (s, inl e).

Definition bind {St A B : Type} (m : M St A) (k : A -> M St B) : M St B :=
  fun s => match m s with
           | (s', inl e) => (s', inl e)
           | (s', inr a) => k a s'
           end.

Definition get {St : Type} : M St St := fun s => (s, inr s).

Definition put {St : Type} (s : St) : M St unit := fun _ => (s, inr tt).

(** A pure step that may raise. *)
Definition lift {St A : Type} (r : exn + A) : M St A := fun s => (s, r).

Notation "x <- c1 ;; c2" := (bind c1 (fun x => c2))
  (at level 100, c1 at next level, right associativity).
Notation "c1 ;;; c2" := (bind c1 (fun _ => c2))
  (at level 100, right associativity).

(** [for x in l: body(x)] *)
Fixpoint for_each {St A : Type} (l : list A) (body : A -> M St unit) : M St unit :=
  match l with
  | [] => ret tt
  | x :: r => body x ;;; for_each r body
  end.

(** [[f(x) for x in l]], left to right. *)
Fixpoint map_m {St A B : Type} (f : A -> M St B) (l : list A) : M St (list B) :=
  match l with
  | [] => ret []
  | x :: r => y <- f x ;; ys <- map_m f r ;; ret (y :: ys)
  end.

(** A method call on the object at [r] of an object store. *)
Definition on_object {Obj A : Type} (r : nat) (m : M Obj A) : M (list Obj) A :=
  fun h => match h !! r with
           | None => (h, inl NoSuchObject)
           | Some o => let (o', res) := m o in (<[r := o']> h, res)
           end.

End Eff.

(* ===================================================================== *)
(** * nexmo/request.py *)
(* ===================================================================== *)

Module Request.
Import PyStr PyVal Json Eff.

(** ** The optional import of django

    [try: from django.http import HttpResponse]
    [except Exception as ex: HttpResponse = None] *)

(** What [render] hands to [HttpResponse]. *)
Record http_response : Type :=
  { content : string; content_type : string }.

(** The class [HttpResponse], called as
    [HttpResponse(content, content_type=...)]. *)
Definition HttpResponseClass : Type := string -> string -> http_response.

(** The outcome of the [import] statement. *)
Inductive import_outcome : Type :=
| Imported (cls : HttpResponseClass)
| ImportRaised.

(** The module global [HttpResponse] once the module is loaded: loading
    goes on whatever the import did. *)
Definition HttpResponse (django : import_outcome) : option HttpResponseClass :=
  match django with
  | Imported cls => Some cls
  | ImportRaised => None
  end.

(** ** class RequestAction *)

(** An instance: its attributes [action] and [options], which [__init__]
    binds before anything reads them. *)
Record RequestAction : Type :=
  { action : pyval; options : dict }.

Definition set_options (d : dict) (self : RequestAction) : RequestAction :=
  {| action := action self; options := d |}.

Definition _snake_case_to_camel (name : string) : string :=
  let words := split "_" name in
  if match words with [] => false | _ => true end && (1 <? length words)%nat
  then hd EmptyString words ++ join_empty (List.map title (tl words))
  else lower name.

(** The call [f(..., **kwargs)] fails when [kwargs] names a parameter that
    the call binds already. *)
Fixpoint pass_kwargs (bound : list string) (kwargs : dict) : exn + unit :=
  match kwargs with
  | [] => inr tt
  | (k, _) :: r =>
      if existsb (String.eqb k) bound then inl (TypeError_multiple_values k)
      else pass_kwargs bound r
  end.

(** [add_option] warns (and goes on) when the name is not lower case. *)
Definition add_option_warns (name : string) : bool :=
  negb (String.eqb name (lower name)).

Definition add_option (name : string) (value : pyval) : M RequestAction unit :=
  let name := if String.eqb name "_from" then "from" else name in
  let key := _snake_case_to_camel name in
  let value := match value with
               | VBool b => VStr (lower (str_bool b))
               | _ => value
               end in
  self <- get ;;
  put (set_options (dict_set key value (options self)) self).

Definition add_options (skip_none_value : bool) (kwargs : dict)
  : M RequestAction unit :=
  for_each kwargs (fun kv =>
    let '(k, v) := kv in
    if skip_none_value && is_None v then ret tt
    else add_option k v).

(** Python 2 [filter(function, iterable)]: the items for which [function]
    is true (the result is a string or tuple for a string or tuple, a list
    otherwise; only its emptiness is looked at). *)
Fixpoint filter_items (function : pyval -> exn + bool) (items : list pyval)
  : exn + list pyval :=
  match items with
  | [] => inr []
  | x :: r =>
      match function x with
      | inl e => inl e
      | inr keep =>
          match filter_items function r with
          | inl e => inl e
          | inr kept => inr (if keep then x :: kept else kept)
          end
      end
  end.

Definition py_filter (function : pyval -> exn + bool) (iterable : pyval)
  : exn + list pyval :=
  match py_iter iterable with
  | inl e => inl e
  | inr items => filter_items function items
  end.

Definition not_isinstance (sub_type : subtype) (itm : pyval) : exn + bool :=
  match isinstance itm sub_type with
  | inl e => inl e
  | inr b => inr (negb b)
  end.

Definition add_lists (sub_type : option subtype) (skip_none_value : bool)
  (kwargs : dict) : M RequestAction unit :=
  for_each kwargs (fun kv =>
    let '(name, the_list) := kv in
    if skip_none_value && is_None the_list then ret tt
    else
      match sub_type with
      | Some t =>
          wrong <- lift (py_filter (not_isinstance t) the_list) ;;
          match wrong with
          | [] => ret tt
          | _ :: _ => raise (ValueError_list_of name t)
          end
      | None => ret tt
      end ;;;
      if truthy the_list && negb (issubclass (class_of the_list) CList)
      then raise (ValueError_not_list name (class_of the_list))
      else add_option name the_list).

(** The test is [isinstance(the_dict, list)] here as well. *)
Definition add_dict (skip_none_value : bool) (kwargs : dict)
  : M RequestAction unit :=
  for_each kwargs (fun kv =>
    let '(name, the_dict) := kv in
    if skip_none_value && is_None the_dict then ret tt
    else if truthy the_dict && negb (issubclass (class_of the_dict) CList)
    then raise (ValueError_not_dict name (class_of the_dict))
    else add_option name the_dict).

Definition clear_options : M RequestAction unit :=
  self <- get ;; put (set_options [] self).

(** [options = self.options or {}] is the instance's own dictionary unless
    that is empty; [update] then writes into it. *)
Definition _get_dict : M RequestAction dict :=
  self <- get ;;
  match options self with
  | [] => ret (dict_set "action" (action self) [])
  | _ :: _ =>
      let options' := dict_set "action" (action self) (options self) in
      put (set_options options' self) ;;;
      ret options'
  end.

(** [__iter__]: the items of [_get_dict()]. *)
Definition __iter__ : M RequestAction (list (string * pyval)) := _get_dict.

(** [RequestAction.__init__(self, action, **kwargs)] *)
Definition __init__ (action : pyval) (kwargs : dict) : M RequestAction unit :=
  put {| action := action; options := [] |} ;;;
  lift (pass_kwargs ["self"; "skip_none_value"] kwargs) ;;;
  add_options false kwargs.

(** [super(Kind, self).__init__(action, **kwargs)] *)
Definition super__init__ (action : pyval) (kwargs : dict) : M RequestAction unit :=
  lift (pass_kwargs ["self"; "action"] kwargs) ;;;
  __init__ action kwargs.

(** ** The six kinds *)

Definition Record__init__
  (event_url event_method format end_on_silence end_on_key time_out
   beep_start : pyval) (kwargs : dict) : M RequestAction unit :=
  let action := VStr "record" in
  super__init__ action kwargs ;;;
  add_lists None true [("event_url", event_url)] ;;;
  add_options true
    [("event_method", event_method); ("format", format);
     ("end_on_silence", end_on_silence); ("end_on_key", end_on_key);
     ("time_out", time_out); ("beep_start", beep_start)].

Definition Conversation__init__
  (name event_url event_method music_on_hold_url start_on_enter end_on_exit
   record : pyval) (kwargs : dict) : M RequestAction unit :=
  let action := VStr "conversation" in
  super__init__ action kwargs ;;;
  add_lists None true
    [("event_url", event_url); ("music_on_hold_url", music_on_hold_url)] ;;;
  add_options true
    [("name", name); ("event_method", event_method);
     ("start_on_enter", start_on_enter); ("end_on_exit", end_on_exit);
     ("record", record)].

Definition Connect__init__
  (endpoint event_url event_method _from event_type timeout limit
   machine_detection : pyval) (kwargs : dict) : M RequestAction unit :=
  let action := VStr "connect" in
  super__init__ action kwargs ;;;
  add_lists (Some (SubClass CDict)) true [("endpoint", endpoint)] ;;;
  add_lists None true [("event_url", event_url)] ;;;
  add_options true
    [("event_method", event_method); ("_from", _from);
     ("event_type", event_type); ("timeout", timeout); ("limit", limit);
     ("machine_detection", machine_detection)].

Definition Talk__init__
  (text barge_in loop voice_name : pyval) (kwargs : dict)
  : M RequestAction unit :=
  let action := VStr "talk" in
  super__init__ action kwargs ;;;
  add_options true
    [("text", text); ("barge_in", barge_in); ("loop", loop);
     ("voice_name", voice_name)].

(** [self.add_lists(stream_url)]: the argument is positional, so it is
    [sub_type] that receives it and no list is added. *)
Definition Stream__init__
  (stream_url level barge_in loop : pyval) (kwargs : dict)
  : M RequestAction unit :=
  let action := VStr "stream" in
  super__init__ action kwargs ;;;
  add_lists (Some (SubValue stream_url)) true [] ;;;
  add_options true
    [("level", level); ("barge_in", barge_in); ("loop", loop)].

Definition Input__init__
  (event_url time_out max_digits submit_on_hash event_method : pyval)
  (kwargs : dict) : M RequestAction unit :=
  let action := VStr "input" in
  super__init__ action kwargs ;;;
  add_lists None true [("event_url", event_url)] ;;;
  add_options true
    [("max_digits", max_digits); ("time_out", time_out);
     ("submit_on_hash", submit_on_hash); ("event_method", event_method)].

(** Calling a class: a new instance is initialised and returned, unless
    [__init__] raises. *)
Definition new (init : M RequestAction unit) : exn + RequestAction :=
  match init {| action := VNone; options := [] |} with
  | (_, inl e) => inl e
  | (self, inr _) => inr self
  end.

(** A call of one of the classes, with every parameter spelled out. *)
Inductive construction : Type :=
| New_RequestAction (action : pyval) (kwargs : dict)
| New_Record (event_url event_method format end_on_silence end_on_key
              time_out beep_start : pyval) (kwargs : dict)
| New_Conversation (name event_url event_method music_on_hold_url
                    start_on_enter end_on_exit record : pyval) (kwargs : dict)
| New_Connect (endpoint event_url event_method _from event_type timeout
               limit machine_detection : pyval) (kwargs : dict)
| New_Talk (text barge_in loop voice_name : pyval) (kwargs : dict)
| New_Stream (stream_url level barge_in loop : pyval) (kwargs : dict)
| New_Input (event_url time_out max_digits submit_on_hash event_method
             : pyval) (kwargs : dict).

Definition initializer (c : construction) : M RequestAction unit :=
  match c with
  | New_RequestAction a kw => __init__ a kw
  | New_Record a b c d e f g kw => Record__init__ a b c d e f g kw
  | New_Conversation a b c d e f g kw => Conversation__init__ a b c d e f g kw
  | New_Connect a b c d e f g h kw => Connect__init__ a b c d e f g h kw
  | New_Talk a b c d kw => Talk__init__ a b c d kw
  | New_Stream a b c d kw => Stream__init__ a b c d kw
  | New_Input a b c d e kw => Input__init__ a b c d e kw
  end.

Definition construct (c : construction) : exn + RequestAction :=
  new (initializer c).

Definition construction_kwargs (c : construction) : dict :=
  match c with
  | New_RequestAction _ kw | New_Record _ _ _ _ _ _ _ kw
  | New_Conversation _ _ _ _ _ _ _ kw | New_Connect _ _ _ _ _ _ _ _ kw
  | New_Talk _ _ _ _ kw | New_Stream _ _ _ _ kw | New_Input _ _ _ _ _ kw => kw
  end.

(** The calls with the defaults of the signatures. *)
Definition Connect (endpoint event_url : pyval) : exn + RequestAction :=
  construct (New_Connect endpoint event_url (VStr "POST") VNone VNone
               (VInt 60) (VInt 7200) VNone []).

Definition Talk (text : pyval) : exn + RequestAction :=
  construct (New_Talk text (VBool false) (VInt 1) (VStr "Kimberly") []).

(** The calls a program can make on an action it holds. *)
Inductive method_call : Type :=
| Call_add_option (name : string) (value : pyval)
| Call_add_options (skip_none_value : bool) (kwargs : dict)
| Call_add_lists (sub_type : option subtype) (skip_none_value : bool)
                 (kwargs : dict)
| Call_add_dict (skip_none_value : bool) (kwargs : dict)
| Call_clear_options.

Definition call (c : method_call) : M RequestAction unit :=
  match c with
  | Call_add_option name value => add_option name value
  | Call_add_options skip kwargs => add_options skip kwargs
  | Call_add_lists sub_type skip kwargs => add_lists sub_type skip kwargs
  | Call_add_dict skip kwargs => add_dict skip kwargs
  | Call_clear_options => clear_options
  end.

(** The option names a call passes. *)
Definition call_names (c : method_call) : list string :=
  match c with
  | Call_add_option name _ => [name]
  | Call_add_options _ kwargs | Call_add_lists _ _ kwargs
  | Call_add_dict _ kwargs => dict_keys kwargs
  | Call_clear_options => []
  end.

(** The key under which [add_option] files a name. *)
Definition option_key (name : string) : string :=
  _snake_case_to_camel (if String.eqb name "_from" then "from" else name).

(** A program calling methods one after the other; an exception it
    catches leaves the action as it is at that point. *)
Fixpoint calls (cs : list method_call) (self : RequestAction) : RequestAction :=
  match cs with
  | [] => self
  | c :: r => calls r (fst (call c self))
  end.

(** ** class RequestJsonEncoder *)

Fixpoint normalize_dict (obj : pyval) : pyval :=
  match obj with
  | VBool b => VStr (lower (str_bool b))
  | VList l | VTuple l => VList (List.map normalize_dict l)
  | VDict d => VDict (List.map (fun kv => (fst kv, normalize_dict (snd kv))) d)
  | _ => obj
  end.

(** [default(o)] for the objects the encoder does not know, which among
    the values of the model are the [RequestAction]s of the document:
    [normalize_dict(dict(o))], where [dict(o)] iterates over [o].  (The
    other branch, [str(self.normalize_dict(o))], is for instances of
    foreign classes.) *)
Definition default (o : nat) : M (list RequestAction) pyval :=
  items <- on_object o __iter__ ;;
  ret (normalize_dict (as_VDict items)).

(** ** class Request *)

Definition JSON_MIME : string := "application/json".

(** The keyword arguments kept for [json.dumps]: [indent] and [sort_keys].
    (Further [**json_options] of the caller are not modelled.) *)
Record json_options_t : Type :=
  { indent : option nat; sort_keys : bool }.

(** A document: the references to its actions, in order. *)
Record Request : Type :=
  { actions : list nat; json_options : json_options_t }.

Definition Request__init__ (pretty sort_keys : bool) : Request :=
  {| actions := [];
     json_options := {| indent := if pretty then Some 4 else None;
                        sort_keys := sort_keys |} |}.

Definition add_action (action : nat) (self : Request) : Request :=
  {| actions := actions self ++ [action];
     json_options := json_options self |}.

(** One element of the top-level list: the encoder calls [default] on it
    and encodes what comes back. *)
Definition encode_action (sort_keys : bool) (o : nat)
  : M (list RequestAction) json :=
  v <- default o ;;
  lift (encode_with sort_keys v).

(** The JSON document of [json.dumps(self.actions, cls=RequestJsonEncoder,
    ...)]. *)
Definition get_json_tree (self : Request) : M (list RequestAction) json :=
  js <- map_m (encode_action (sort_keys (json_options self))) (actions self) ;;
  ret (JArr js).

Definition get_json_string (self : Request) : M (list RequestAction) string :=
  j <- get_json_tree self ;;
  ret (render (indent (json_options self)) 0 j).

Definition render (HttpResponse : option HttpResponseClass) (self : Request)
  : M (list RequestAction) http_response :=
  match HttpResponse with
  | None => raise ImportError_HttpResponse
  | Some cls =>
      json_response <- get_json_string self ;;
      ret (cls json_response JSON_MIME)
  end.

(** ** Reading the model *)

(** The dictionary an action is serialized from, and the action as
    serialization leaves it. *)
Definition wire_dict (self : RequestAction) : dict :=
  match snd (_get_dict self) with
  | inr d => d
  | inl _ => []
  end.

Definition serialized (self : RequestAction) : RequestAction :=
  fst (_get_dict self).

(** The wire representation of an action. *)
Definition wire (sort_keys : bool) (self : RequestAction) : exn + json :=
  encode_with sort_keys (normalize_dict (as_VDict (wire_dict self))).


End Request.

(* ===================================================================== *)
(** * nexmo/response.py *)
(* ===================================================================== *)

Module Response.
Import PyStr PyVal Eff.

(** ** class ResponseAction

    The class body binds [action = None] and [options = {}]: one
    dictionary, made when the class is.  An instance has the attributes
    that were assigned on it, and reading [self.options] falls back on the
    class when the instance has none of its own. *)

(** The attributes bound on an instance. *)
Record instance : Type :=
  { inst_action : option pyval; inst_options : option dict }.

(** The class attribute [options] and the instances there are. *)
Record state : Type :=
  { ResponseAction_options : dict; instances : list instance }.

(** The module just loaded. *)
Definition initial : state :=
  {| ResponseAction_options := []; instances := [] |}.

Definition _snake_case_to_camel (name : string) : string :=
  let words := split "_" name in
  if match words with [] => false | _ => true end && (1 <? length words)%nat
  then hd EmptyString words ++ join_empty (List.map title (tl words))
  else lower name.

Definition the_instance (self : nat) : M state instance :=
  st <- get ;;
  match instances st !! self with
  | Some i => ret i
  | None => raise NoSuchObject
  end.

(** [self.action] *)
Definition self_action (self : nat) : M state pyval :=
  i <- the_instance self ;;
  ret (match inst_action i with Some a => a | None => VNone end).

(** [self.options] *)
Definition self_options (self : nat) : M state dict :=
  i <- the_instance self ;;
  st <- get ;;
  ret (match inst_options i with
       | Some d => d
       | None => ResponseAction_options st
       end).

(** A change made to the dictionary that [self.options] is. *)
Definition update_self_options (self : nat) (f : dict -> dict) : M state unit :=
  i <- the_instance self ;;
  st <- get ;;
  match inst_options i with
  | Some d =>
      put {| ResponseAction_options := ResponseAction_options st;
             instances := <[self := {| inst_action := inst_action i;
                                       inst_options := Some (f d) |}]>
                            (instances st) |}
  | None =>
      put {| ResponseAction_options := f (ResponseAction_options st);
             instances := instances st |}
  end.

Definition add_option (self : nat) (name : string) (value : pyval)
  : M state unit :=
  let key := _snake_case_to_camel name in
  update_self_options self (dict_set key value).

Definition add_options (self : nat) (kwargs : dict) : M state unit :=
  for_each kwargs (fun kv => add_option self (fst kv) (snd kv)).

Definition clear_options (self : nat) : M state unit :=
  update_self_options self (fun _ => []).

(** [self.action = action], then [self.add_options(kwargs)]: a positional
    argument for a method that takes none. *)
Definition __init__ (self : nat) (action : pyval) (kwargs : dict)
  : M state unit :=
  i <- the_instance self ;;
  st <- get ;;
  put {| ResponseAction_options := ResponseAction_options st;
         instances := <[self := {| inst_action := Some action;
                                   inst_options := inst_options i |}]>
                        (instances st) |} ;;;
  raise (TypeError_positional "add_options").

(** The method named [__dict__]. *)
Definition __dict__ (self : nat) : M state dict :=
  options <- self_options self ;;
  action <- self_action self ;;
  match options with
  | [] => ret (dict_set "action" action [])
  | _ :: _ =>
      update_self_options self (dict_set "action" action) ;;;
      self_options self
  end.

(** A fresh instance, before [__init__] runs on it. *)
Definition new_instance : M state nat :=
  st <- get ;;
  put {| ResponseAction_options := ResponseAction_options st;
         instances := instances st ++
                      [{| inst_action := None; inst_options := None |}] |} ;;;
  ret (length (instances st)).

(** What a program can do with the class and its instances. *)
Inductive operation : Type :=
| Op_new
| Op__init__ (self : nat) (action : pyval) (kwargs : dict)
| Op_add_option (self : nat) (name : string) (value : pyval)
| Op_add_options (self : nat) (kwargs : dict)
| Op_clear_options (self : nat)
| Op__dict__ (self : nat).

Definition perform (op : operation) (st : state) : state :=
  match op with
  | Op_new => fst (new_instance st)
  | Op__init__ self action kwargs => fst (__init__ self action kwargs st)
  | Op_add_option self name value => fst (add_option self name value st)
  | Op_add_options self kwargs => fst (add_options self kwargs st)
  | Op_clear_options self => fst (clear_options self st)
  | Op__dict__ self => fst (__dict__ self st)
  end.

(** The states a program can bring about. *)
Inductive reachable : state -> Prop :=
| reachable_initial : reachable initial
| reachable_step st op : reachable st -> reachable (perform op st).

(** The options of an instance, as [self.options] reads them. *)
Definition options_of (self : nat) (st : state) : option dict :=
  match snd (self_options self st) with
  | inr d => Some d
  | inl _ => None
  end.

End Response.

(* ===================================================================== *)
(** * The specification's wording, where it is compared with the code *)
(* ===================================================================== *)

Module Spec.
Import PyStr PyVal.

(** [toWireKey] as section 4.1 words it: the first segment unchanged, each
    later segment with its first character upper-cased; a name of one
    segment lower-cased. *)
Definition toWireKey (name : string) : string :=
  match split "_" name with
  | w0 :: (_ :: _) as rest => w0 ++ join_empty (List.map upper_first rest)
  | _ => lower name
  end.


(** No name of the list is filed under the key ["action"]. *)
Definition avoid_action (names : list string) : bool :=
  forallb (fun n => negb (String.eqb (Request.option_key n) "action")) names.

End Spec.


(* ===================================================================== *)
(** * Invariants and sample data used in the proofs *)
(* ===================================================================== *)

Module Inv.
Import PyVal Eff.

Section OnRequests.
Import Request.

(** The action is of kind [a] and has no option under ["action"]. *)
Definition clean (a : pyval) (self : RequestAction) : Prop :=
  action self = a /\ has_key "action" (options self) = false.

(** [m] leaves a clean action clean, whether it returns or raises. *)
Definition keeps_clean {A : Type} (a : pyval) (m : M RequestAction A) : Prop :=
  forall self, clean a self -> clean a (fst (m self)).

(** [m] does not raise the [ImportError] of [render]. *)
Definition no_ImportError {St A : Type} (m : M St A) : Prop :=
  forall s, snd (m s) <> inl ImportError_HttpResponse.

(** A talk action that barges in, with an extra option that holds a
    boolean two levels down. *)
Definition talk_hello : RequestAction :=
  {| action := VStr "talk";
     options :=
       [("text", VStr "hello"); ("bargeIn", VStr "true");
        ("extra", VList [VDict [(KStr "record", VBool false)]])] |}.

End OnRequests.

Section OnResponses.
Import Response.

(** No instance has a dictionary of its own. *)
Definition all_share (st : state) : Prop :=
  Forall (fun i => inst_options i = None) (instances st).

(** Two instances, the first with an option [text]. *)
Definition two_responses : state :=
  perform (Op_add_option 0 "text" (VStr "hello")) (perform Op_new (perform Op_new initial)).

End OnResponses.

End Inv.
(* ===================================================================== *)
(** * Further notions: what is stored, what is safe to encode, and the
      response-side document *)
(* ===================================================================== *)

Module Ext.
Import PyStr PyVal Json Eff.

Section OnRequests.
Import Request.

(** [m] leaves an action in [P] in [P], whether it returns or raises. *)
Definition keeps {A : Type} (P : RequestAction -> Prop)
  (m : M RequestAction A) : Prop :=
  forall self, P self -> P (fst (m self)).

(** No key of the option bag has an underscore. *)
Definition camel_keys (self : RequestAction) : Prop :=
  forallb (free_of "_") (dict_keys (options self)) = true.

(** The value [add_option] puts in the bag for a value it is given. *)
Definition stored (value : pyval) : pyval :=
  match value with
  | VBool b => VStr (if b then "true" else "false")
  | _ => value
  end.

(** The value that [add_options] leaves under the key [K]: that of the
    last keyword argument filed under [K] that is not skipped, if any. *)
Fixpoint written (skip_none_value : bool) (kwargs : dict) (K : string)
  : option pyval :=
  match kwargs with
  | [] => None
  | (k, v) :: r =>
      match written skip_none_value r K with
      | Some w => Some w
      | None =>
          if negb (skip_none_value && is_None v) && String.eqb (option_key k) K
          then Some (stored v)
          else None
      end
  end.

(** The discriminator a call of a class gives the instance. *)
Definition kind (c : construction) : pyval :=
  match c with
  | New_RequestAction a _ => a
  | New_Record _ _ _ _ _ _ _ _ => VStr "record"
  | New_Conversation _ _ _ _ _ _ _ _ => VStr "conversation"
  | New_Connect _ _ _ _ _ _ _ _ _ => VStr "connect"
  | New_Talk _ _ _ _ _ => VStr "talk"
  | New_Stream _ _ _ _ _ => VStr "stream"
  | New_Input _ _ _ _ _ _ => VStr "input"
  end.


(** The name has an ASCII upper-case letter. *)
Fixpoint has_upper (s : string) : bool :=
  match s with
  | EmptyString => false
  | String c r => is_upper c || has_upper r
  end.



(** No boolean is left in the value (keys apart). *)
Fixpoint bool_free (v : pyval) : bool :=
  match v with
  | VBool _ => false
  | VList l | VTuple l => forallb bool_free l
  | VDict d => forallb (fun kv => bool_free (snd kv)) d
  | _ => true
  end.

End OnRequests.

(** ** class Response (nexmo/response.py)

    A response document keeps its actions and the [pretty] flag, and
    serializes with [json.dumps(response, **options)]: no encoder class is
    given, so an action in the list meets [JSONEncoder.default], which
    raises. *)

Record ResponseDoc : Type :=
  { response_actions : list nat; pretty : bool }.

Definition Response__init__ (pretty : bool) : ResponseDoc :=
  {| response_actions := []; pretty := pretty |}.

Definition Response_add_action (action : nat) (self : ResponseDoc) : ResponseDoc :=
  {| response_actions := response_actions self ++ [action];
     pretty := pretty self |}.

(** The exception of [JSONEncoder.default]: the object [o] "is not JSON
    serializable". *)
Inductive dumps_error : Type :=
| TypeError_not_JSON_serializable (o : nat).

(** [JSONEncoder.default(o)] *)
Definition JSONEncoder_default (o : nat) : dumps_error + json :=
  inl (TypeError_not_JSON_serializable o).

Fixpoint dumps_items (l : list nat) : dumps_error + list json :=
  match l with
  | [] => inr []
  | o :: r =>
      match JSONEncoder_default o with
      | inl e => inl e
      | inr j => match dumps_items r with
                 | inl e => inl e
                 | inr js => inr (j :: js)
                 end
      end
  end.

Definition Response_get_json_string (self : ResponseDoc) : dumps_error + string :=
  let options := if pretty self then Some 4 else None in
  match dumps_items (response_actions self) with
  | inl e => inl e
  | inr js => inr (Json.render options 0 (JArr js))
  end.

End Ext.

(* ===================================================================== *)
(** * Properties *)
(* ===================================================================== *)

Import PyStr PyVal Json Eff Inv.

(** ** Strings *)

Section Strings.

Lemma split_nonempty sep s : split sep s <> [].
Proof.
  destruct s as [|c r]; simpl; [discriminate|].
  destruct (Ascii.eqb c sep); [discriminate|].
  destruct (split sep r); discriminate.
Qed.

Lemma split_free sep s : free_of sep s = true -> split sep s = [s].
Proof.
  induction s as [|c r IH]; simpl; [reflexivity|].
  intros H. apply andb_prop in H as [Hc Hr].
  destruct (Ascii.eqb c sep); [discriminate|].
  rewrite (IH Hr). reflexivity.
Qed.

Lemma split_app_sep sep w s :
  free_of sep w = true ->
  split sep (w ++ String sep s) = w :: split sep s.
Proof.
  induction w as [|c r IH]; simpl; intros H.
  - rewrite Ascii.eqb_refl. reflexivity.
  - apply andb_prop in H as [Hc Hr].
    destruct (Ascii.eqb c sep); [discriminate|].
    rewrite (IH Hr). reflexivity.
Qed.

(** Splitting undoes joining, for segments free of the separator. *)
Lemma split_join sep ws :
  ws <> [] -> forallb (free_of sep) ws = true ->
  split sep (join sep ws) = ws.
Proof.
  induction ws as [|w rest IH]; [congruence|].
  intros _ H. simpl in H. apply andb_prop in H as [Hw Hrest].
  destruct rest as [|w' rest'].
  - simpl. apply split_free, Hw.
  - change (join sep (w :: w' :: rest'))
      with (w ++ String sep (join sep (w' :: rest'))).
    rewrite split_app_sep by exact Hw.
    rewrite IH; [reflexivity|discriminate|exact Hrest].
Qed.

Lemma title_fixed_from_ok b s :
  title_fixed_from b s = true -> title_from b s = s.
Proof.
  revert b. induction s as [|c r IH]; simpl; intros b H; [reflexivity|].
  destruct (is_lower c).
  - apply andb_prop in H as [-> Hr]. rewrite (IH _ Hr). reflexivity.
  - destruct (is_upper c).
    + apply andb_prop in H as [Hb Hr]. apply negb_true_iff in Hb as ->.
      rewrite (IH _ Hr). reflexivity.
    + rewrite (IH _ H). reflexivity.
Qed.

(** On a plain segment, title-casing is upper-casing the first character. *)
Lemma title_plain s : plain_segment s = true -> title s = upper_first s.
Proof.
  destruct s as [|c r]; [reflexivity|].
  unfold title, plain_segment, upper_first. cbn [title_from].
  destruct (is_lower c) eqn:El; cbn [orb].
  - intros H. rewrite (title_fixed_from_ok _ _ H). reflexivity.
  - assert (to_upper c = c) as -> by (unfold to_upper; rewrite El; reflexivity).
    destruct (is_upper c); intros H;
      rewrite (title_fixed_from_ok _ _ H); reflexivity.
Qed.

Lemma map_title_plain ws :
  forallb plain_segment ws = true -> List.map title ws = List.map upper_first ws.
Proof.
  induction ws as [|w r IH]; simpl; [reflexivity|].
  intros H. apply andb_prop in H as [Hw Hr].
  rewrite (title_plain _ Hw), (IH Hr). reflexivity.
Qed.

End Strings.

(** ** Key normalization *)

Section WireKeys.
Import Request.

(** C2, as the claim has it, fails: the later segments are title-cased, so
    in [stop_after_3rd] the letter behind the digit goes to upper case as
    well, which upper-casing the first character of each segment does
    not do. *)
Lemma snake_case_to_camel_not_upper_first :
  split "_" "stop_after_3rd" = ["stop"; "after"; "3rd"]
  /\ _snake_case_to_camel "stop_after_3rd" = "stopAfter3Rd"
  /\ _snake_case_to_camel "stop_after_3rd"
     <> "stop" ++ join_empty (List.map upper_first ["after"; "3rd"])
  /\ _snake_case_to_camel "stop_after_3rd" <> Spec.toWireKey "stop_after_3rd".
Proof. repeat split; try reflexivity; vm_compute; discriminate. Qed.

(** C2, amended: a name of two or more segments becomes the first segment
    followed by the later ones title-cased ([str.title]: in each run of
    letters the first in upper case, the others in lower case); on later
    segments that are plain (no letter behind a non-letter, no upper-case
    letter behind a letter) that is each segment with its first character
    upper-cased, and the code agrees with the specification's [toWireKey].
    A name of one segment is lower-cased. *)
Theorem snake_case_to_camel_segments (n : string) :
  (2 <= length (split "_" n) ->
     _snake_case_to_camel n
     = hd EmptyString (split "_" n)
       ++ join_empty (List.map title (tl (split "_" n)))
     /\ (forallb plain_segment (tl (split "_" n)) = true ->
         _snake_case_to_camel n
         = hd EmptyString (split "_" n)
           ++ join_empty (List.map upper_first (tl (split "_" n)))
         /\ _snake_case_to_camel n = Spec.toWireKey n))
  /\ (length (split "_" n) = 1 ->
      _snake_case_to_camel n = lower n /\ Spec.toWireKey n = lower n).
Proof.
  unfold _snake_case_to_camel, Spec.toWireKey.
  destruct (split "_" n) as [|w0 [|w1 ws]] eqn:E.
  - exfalso. exact (split_nonempty _ _ E).
  - split; [simpl; lia|]. intros _. split; reflexivity.
  - split; [|simpl; discriminate].
    intros _. split; [reflexivity|].
    cbn [hd tl]. intros Hp.
    change ((match w0 :: w1 :: ws with [] => false | _ => true end
             && (1 <? length (w0 :: w1 :: ws))%nat)) with true.
    cbn iota. cbn [hd tl].
    rewrite (map_title_plain _ Hp). split; reflexivity.
Qed.

Lemma snake_case_to_camel_segments_witness :
  _snake_case_to_camel "event_url" = "eventUrl"
  /\ _snake_case_to_camel "end_on_silence" = "endOnSilence"
  /\ _snake_case_to_camel "end_on_silence" = Spec.toWireKey "end_on_silence"
  /\ _snake_case_to_camel "timeout" = "timeout".
Proof.
  split; [|split; [|split]].
  - apply (proj1 (proj1 (snake_case_to_camel_segments "event_url")
                    ltac:(vm_compute; lia))).
  - apply (proj1 (proj1 (snake_case_to_camel_segments "end_on_silence")
                    ltac:(vm_compute; lia))).
  - apply (proj2 (proj1 (snake_case_to_camel_segments "end_on_silence")
                    ltac:(vm_compute; lia))). reflexivity.
  - apply (proj1 (proj2 (snake_case_to_camel_segments "timeout")
                    ltac:(reflexivity))).
Defined.

End WireKeys.

(** ** Dictionaries *)

Section Dictionaries.

Lemma dict_get_set_eq k v (d : dict) : dict_get k (dict_set k v d) = Some v.
Proof.
  induction d as [|[k' v'] r IH]; simpl.
  - rewrite String.eqb_refl. reflexivity.
  - destruct (String.eqb k k') eqn:E; simpl.
    + rewrite String.eqb_refl. reflexivity.
    + rewrite E. exact IH.
Qed.

Lemma dict_get_set_ne k k' v (d : dict) :
  k <> k' -> dict_get k' (dict_set k v d) = dict_get k' d.
Proof.
  intros Hne. induction d as [|[k0 v0] r IH]; simpl.
  - destruct (String.eqb k' k) eqn:E; [|reflexivity].
    apply String.eqb_eq in E. congruence.
  - destruct (String.eqb k k0) eqn:E; simpl.
    + apply String.eqb_eq in E. subst k0.
      destruct (String.eqb k' k) eqn:E'; [|reflexivity].
      apply String.eqb_eq in E'. congruence.
    + rewrite IH. reflexivity.
Qed.

Lemma has_key_set_ne k k' v (d : dict) :
  k <> k' -> has_key k' (dict_set k v d) = has_key k' d.
Proof. intros H. unfold has_key. rewrite dict_get_set_ne by exact H. reflexivity. Qed.

Lemma has_key_set_eq k v (d : dict) : has_key k (dict_set k v d) = true.
Proof. unfold has_key. rewrite dict_get_set_eq. reflexivity. Qed.

(** Writing the same item twice is writing it once. *)
Lemma dict_set_twice k v (d : dict) :
  dict_set k v (dict_set k v d) = dict_set k v d.
Proof.
  induction d as [|[k' v'] r IH]; simpl.
  - rewrite String.eqb_refl. reflexivity.
  - destruct (String.eqb k k') eqn:E; simpl.
    + rewrite String.eqb_refl. reflexivity.
    + rewrite E, IH. reflexivity.
Qed.


End Dictionaries.

(** ** Adding options *)

Section Options.
Import Request.

(** The value [add_option] stores: a boolean as its lower-case name. *)
Lemma lower_str_bool b : lower (str_bool b) = if b then "true" else "false".
Proof. destruct b; reflexivity. Qed.

Lemma add_option_eq name value self :
  add_option name value self
  = (set_options
       (dict_set (option_key name)
          match value with
          | VBool b => VStr (if b then "true" else "false")
          | _ => value
          end (options self)) self, inr tt).
Proof.
  unfold add_option, option_key, bind, get, put.
  destruct value; try reflexivity.
  rewrite lower_str_bool. reflexivity.
Qed.

(** C8: an option added under the name [_from] is stored under the key
    ["from"], with its value (a boolean as a string) and nothing else
    changed; the generic conversion of [_from] would have given ["From"]. *)
Theorem add_option_from (self : RequestAction) (value : pyval) :
  let stored := match value with
                | VBool b => VStr (if b then "true" else "false")
                | _ => value
                end in
  add_option "_from" value self
  = (set_options (dict_set "from" stored (options self)) self, inr tt)
  /\ dict_get "from" (options (fst (add_option "_from" value self))) = Some stored
  /\ (forall k, k <> "from" ->
      dict_get k (options (fst (add_option "_from" value self)))
      = dict_get k (options self))
  /\ action (fst (add_option "_from" value self)) = action self
  /\ option_key "_from" = "from"
  /\ _snake_case_to_camel "_from" = "From".
Proof.
  cbv zeta. rewrite add_option_eq.
  change (option_key "_from") with "from". cbn [fst set_options options action].
  repeat split.
  - apply dict_get_set_eq.
  - intros k Hk. apply dict_get_set_ne. congruence.
Qed.

Lemma add_option_from_witness :
  dict_get "to"
    (options (fst (add_option "_from" (VStr "447700900000")
                     {| action := VStr "connect";
                        options := [("to", VStr "447700900001")] |})))
  = Some (VStr "447700900001").
Proof.
  apply (proj1 (proj2 (proj2
           (add_option_from {| action := VStr "connect";
                               options := [("to", VStr "447700900001")] |}
                            (VStr "447700900000"))))).
  discriminate.
Defined.

End Options.

(** ** Building actions *)

Section Construction.
Import Request.

(** [add_options] never raises. *)
Lemma add_options_returns skip kwargs self :
  snd (add_options skip kwargs self) = inr tt.
Proof.
  revert self. induction kwargs as [|[k v] r IH]; intros self; [reflexivity|].
  unfold add_options in *. cbn [for_each]. unfold bind at 1.
  destruct (skip && is_None v).
  - cbn. apply IH.
  - rewrite add_option_eq. apply IH.
Qed.






Lemma bind_ret_unit {St : Type} (m : M St unit) s : (m ;;; ret tt) s = m s.
Proof. unfold bind, ret. destruct (m s) as [s' [e|[]]]; reflexivity. Qed.



(** C3: [Connect(endpoint=[{"type":"phone","number":"123"}],
    event_url=["http://x"])] is built, and a document that holds it
    serializes, whatever its layout options, to an array of one object
    with the members [action], [endpoint] (one object, of [type] and
    [number]), [eventUrl], [timeout] and [limit] of the claim. *)
Theorem Connect_phone_serialized :
  exists o,
    Connect (VList [VDict [(KStr "type", VStr "phone");
                           (KStr "number", VStr "123")]])
            (VList [VStr "http://x"]) = inr o
    /\ forall pretty sort_keys,
       let doc := add_action 0 (Request__init__ pretty sort_keys) in
       exists ms ep,
         snd (get_json_tree doc [o]) = inr (JArr [JObj ms])
         /\ snd (get_json_string doc [o])
            = inr (Json.render (indent (json_options doc)) 0 (JArr [JObj ms]))
         /\ member "action" ms = Some (JStr "connect")
         /\ member "endpoint" ms = Some (JArr [JObj ep])
         /\ length ep = 2
         /\ member "type" ep = Some (JStr "phone")
         /\ member "number" ep = Some (JStr "123")
         /\ member "eventUrl" ms = Some (JArr [JStr "http://x"])
         /\ member "timeout" ms = Some (JNum 60)
         /\ member "limit" ms = Some (JNum 7200).
Proof.
  eexists. split; [vm_compute; reflexivity|].
  intros [|] [|]; cbv zeta; eexists; eexists;
    (split; [vm_compute; reflexivity|]);
    (split; [vm_compute; reflexivity|]);
    repeat split; reflexivity.
Qed.




End Construction.

(** ** The key ["action"] in the option bag *)

Section ActionKey.
Import Request.

Lemma keeps_clean_ret {A : Type} a (x : A) : keeps_clean a (ret x).
Proof. intros self H. exact H. Qed.

Lemma keeps_clean_raise {A : Type} a e : keeps_clean a (@raise _ A e).
Proof. intros self H. exact H. Qed.

Lemma keeps_clean_lift {A : Type} a (r : exn + A) : keeps_clean a (lift r).
Proof. intros self H. exact H. Qed.

Lemma keeps_clean_bind {A B : Type} a (m : M RequestAction A)
      (k : A -> M RequestAction B) :
  keeps_clean a m -> (forall x, keeps_clean a (k x)) -> keeps_clean a (bind m k).
Proof.
  intros Hm Hk self H. unfold bind. specialize (Hm self H).
  destruct (m self) as [s [e|x]]; cbn in *; [exact Hm|].
  apply Hk, Hm.
Qed.

Lemma keeps_clean_for_each {A : Type} a (l : list A)
      (body : A -> M RequestAction unit) :
  (forall x, In x l -> keeps_clean a (body x)) -> keeps_clean a (for_each l body).
Proof.
  induction l as [|x r IH]; intros H; [apply keeps_clean_ret|].
  cbn [for_each]. apply keeps_clean_bind.
  - apply H. left. reflexivity.
  - intros _. apply IH. intros y Hy. apply H. right. exact Hy.
Qed.

Lemma keeps_clean_add_option a name value :
  option_key name <> "action" -> keeps_clean a (add_option name value).
Proof.
  intros Hk self [Ha Hc]. rewrite add_option_eq. unfold clean.
  cbn [fst set_options options action]. split; [exact Ha|].
  rewrite has_key_set_ne by exact Hk. exact Hc.
Qed.

Lemma avoid_action_In names n :
  Spec.avoid_action names = true -> In n names -> option_key n <> "action".
Proof.
  unfold Spec.avoid_action. rewrite forallb_forall. intros H Hin.
  specialize (H n Hin). apply negb_true_iff in H.
  apply String.eqb_neq. exact H.
Qed.

Lemma In_dict_keys (k : string) (v : pyval) (d : dict) :
  In (k, v) d -> In k (dict_keys d).
Proof. intros H. unfold dict_keys. apply (in_map fst) in H. exact H. Qed.

Lemma keeps_clean_add_options a skip kwargs :
  Spec.avoid_action (dict_keys kwargs) = true ->
  keeps_clean a (add_options skip kwargs).
Proof.
  intros H. apply keeps_clean_for_each. intros [k v] Hin.
  destruct (skip && is_None v); [apply keeps_clean_ret|].
  apply keeps_clean_add_option.
  exact (avoid_action_In _ _ H (In_dict_keys _ _ _ Hin)).
Qed.

Lemma keeps_clean_add_lists a sub_type skip kwargs :
  Spec.avoid_action (dict_keys kwargs) = true ->
  keeps_clean a (add_lists sub_type skip kwargs).
Proof.
  intros H. apply keeps_clean_for_each. intros [k v] Hin.
  destruct (skip && is_None v); [apply keeps_clean_ret|].
  apply keeps_clean_bind.
  - destruct sub_type as [t|]; [|apply keeps_clean_ret].
    apply keeps_clean_bind; [apply keeps_clean_lift|].
    intros [|x l]; [apply keeps_clean_ret|apply keeps_clean_raise].
  - intros _. destruct (truthy v && _); [apply keeps_clean_raise|].
    apply keeps_clean_add_option.
    exact (avoid_action_In _ _ H (In_dict_keys _ _ _ Hin)).
Qed.

Lemma keeps_clean_add_dict a skip kwargs :
  Spec.avoid_action (dict_keys kwargs) = true ->
  keeps_clean a (add_dict skip kwargs).
Proof.
  intros H. apply keeps_clean_for_each. intros [k v] Hin.
  destruct (skip && is_None v); [apply keeps_clean_ret|].
  destruct (truthy v && _); [apply keeps_clean_raise|].
  apply keeps_clean_add_option.
  exact (avoid_action_In _ _ H (In_dict_keys _ _ _ Hin)).
Qed.

Lemma keeps_clean_clear_options a : keeps_clean a clear_options.
Proof. intros self [Ha _]. split; [exact Ha|reflexivity]. Qed.

Lemma keeps_clean_call a c :
  Spec.avoid_action (call_names c) = true -> keeps_clean a (call c).
Proof.
  destruct c; cbn [call call_names]; intros H.
  - apply keeps_clean_add_option. apply (avoid_action_In _ _ H). left. reflexivity.
  - apply keeps_clean_add_options, H.
  - apply keeps_clean_add_lists, H.
  - apply keeps_clean_add_dict, H.
  - apply keeps_clean_clear_options.
Qed.

Lemma clean_calls a cs self :
  forallb (fun c => Spec.avoid_action (call_names c)) cs = true ->
  clean a self -> clean a (calls cs self).
Proof.
  revert self. induction cs as [|c r IH]; intros self H Hc; [exact Hc|].
  cbn in H. apply andb_prop in H as [H1 H2]. cbn [calls].
  apply IH; [exact H2|]. apply keeps_clean_call; assumption.
Qed.

(** The initializer of the base class makes a clean action of whatever it
    starts from, as long as it runs. *)
Lemma clean__init__ a kwargs self :
  Spec.avoid_action (dict_keys kwargs) = true ->
  clean a (fst (__init__ a kwargs self)).
Proof.
  intros H. unfold __init__, bind at 1, put.
  assert (clean a {| action := a; options := [] |}) as Hc by (split; reflexivity).
  revert Hc. generalize {| action := a; options := [] |}. intros s Hc.
  apply (keeps_clean_bind a (lift (pass_kwargs ["self"; "skip_none_value"] kwargs))
           (fun _ => add_options false kwargs)); [apply keeps_clean_lift| |exact Hc].
  intros _. apply keeps_clean_add_options, H.
Qed.

(** An instance that a constructor returns is clean. *)
Lemma clean_construct c o :
  Spec.avoid_action (dict_keys (construction_kwargs c)) = true ->
  construct c = inr o -> exists a, clean a o.
Proof.
  intros H. unfold construct, new.
  destruct (initializer c _) as [self [e|[]]] eqn:E; [discriminate|].
  intros [= <-].
  assert (self = fst (initializer c {| action := VNone; options := [] |}))
    as -> by (rewrite E; reflexivity).
  clear E.
  destruct c; cbn [initializer construction_kwargs] in *;
    try (eexists; apply clean__init__; exact H);
    unfold Record__init__, Conversation__init__, Connect__init__,
      Talk__init__, Stream__init__, Input__init__, super__init__;
    cbv zeta.
  all: match goal with
       | |- exists a, clean a (fst (bind (bind (lift ?p) ?k) ?k2 ?s)) =>
           unfold bind at 1, bind at 1, lift;
           destruct p as [e|[]]
       end.
  all: try (exists VNone; split; reflexivity).
  all: match goal with
       | |- exists _, clean _ (fst (match __init__ ?k ?kw ?s with _ => _ end)) =>
           exists k; pose proof (clean__init__ k kw s H) as Hc;
           destruct (__init__ k kw s) as [s1 [e|[]]]; cbn [fst] in Hc;
           [exact Hc|]
       end.
  all: match goal with
       | |- clean ?k (fst (?m ?s)) =>
           cut (keeps_clean k m); [intros Hk; exact (Hk s Hc)|]
       end.
  all: repeat (first
         [ apply keeps_clean_add_lists; reflexivity
         | apply keeps_clean_add_options; reflexivity
         | apply keeps_clean_bind; [|intros _] ]).
Qed.

(** What an action is serialized from has the kind under ["action"]. *)
Lemma wire_dict_action self :
  dict_get "action" (wire_dict self) = Some (action self).
Proof.
  unfold wire_dict, _get_dict, bind, get, put, ret.
  destruct (options self) eqn:E; cbn [snd]; apply dict_get_set_eq.
Qed.

End ActionKey.

(** ** Serializing a document *)

Section Serialization.
Import Request.

Lemma wire_dict_eq self :
  wire_dict self = dict_set "action" (action self) (options self).
Proof.
  unfold wire_dict, _get_dict, bind, get, put, ret.
  destruct (options self); reflexivity.
Qed.

Lemma serialized_eq self :
  serialized self
  = match options self with
    | [] => self
    | _ :: _ => set_options (dict_set "action" (action self) (options self)) self
    end.
Proof.
  unfold serialized, _get_dict, bind, get, put, ret.
  destruct (options self); reflexivity.
Qed.

Lemma _get_dict_eq self : _get_dict self = (serialized self, inr (wire_dict self)).
Proof.
  unfold serialized, wire_dict, _get_dict, bind, get, put, ret.
  destruct (options self); reflexivity.
Qed.

(** Serializing an action leaves what it is serialized from as it was. *)
Lemma wire_dict_serialized self : wire_dict (serialized self) = wire_dict self.
Proof.
  rewrite serialized_eq. destruct (options self) eqn:E; [reflexivity|].
  rewrite !wire_dict_eq. cbn [action options set_options].
  rewrite E. apply dict_set_twice.
Qed.



(** One element of the document. *)
Lemma encode_action_eq sort r (h : list RequestAction) :
  encode_action sort r h
  = match h !! r with
    | None => (h, inl NoSuchObject)
    | Some o => (<[r := serialized o]> h, wire sort o)
    end.
Proof.
  unfold encode_action, default, on_object, __iter__, bind, ret, lift.
  destruct (h !! r) as [o|]; [|reflexivity].
  rewrite _get_dict_eq. reflexivity.
Qed.

Lemma map_m_cons {St A B : Type} (f : A -> M St B) x r s :
  map_m f (x :: r) s
  = match f x s with
    | (s1, inl e) => (s1, inl e)
    | (s1, inr y) =>
        match map_m f r s1 with
        | (s2, inl e) => (s2, inl e)
        | (s2, inr ys) => (s2, inr (y :: ys))
        end
    end.
Proof.
  cbn [map_m]. unfold bind, ret.
  destruct (f x s) as [s1 [e|y]]; [reflexivity|].
  destruct (map_m f r s1) as [s2 [e|ys]]; reflexivity.
Qed.

(** The store as serialization sees it. *)
Lemma views_touch (h : list RequestAction) r o :
  h !! r = Some o ->
  List.map wire_dict (<[r := serialized o]> h) = List.map wire_dict h.
Proof.
  intros H. change (wire_dict <$> <[r := serialized o]> h = wire_dict <$> h).
  rewrite list_fmap_insert, wire_dict_serialized.
  apply list_insert_id. rewrite list_lookup_fmap, H. reflexivity.
Qed.

Lemma views_lookup (h h' : list RequestAction) r :
  List.map wire_dict h = List.map wire_dict h' ->
  wire_dict <$> (h !! r) = wire_dict <$> (h' !! r).
Proof.
  intros H. rewrite <- !list_lookup_fmap.
  change (wire_dict <$> h) with (List.map wire_dict h).
  change (wire_dict <$> h') with (List.map wire_dict h').
  rewrite H. reflexivity.
Qed.





Lemma get_json_tree_eq req (h : list RequestAction) :
  get_json_tree req h
  = match map_m (encode_action (sort_keys (json_options req))) (actions req) h with
    | (h', inl e) => (h', inl e)
    | (h', inr js) => (h', inr (JArr js))
    end.
Proof.
  unfold get_json_tree, bind, ret.
  destruct (map_m _ _ h) as [h' [e|js]]; reflexivity.
Qed.

Lemma get_json_string_eq req (h : list RequestAction) :
  get_json_string req h
  = match get_json_tree req h with
    | (h', inl e) => (h', inl e)
    | (h', inr j) => (h', inr (Json.render (indent (json_options req)) 0 j))
    end.
Proof.
  unfold get_json_string, bind, ret.
  destruct (get_json_tree req h) as [h' [e|j]]; reflexivity.
Qed.


Lemma actions_fold_add_action refs req :
  actions (fold_left (fun doc r => add_action r doc) refs req)
  = (actions req ++ refs)%list.
Proof.
  revert req. induction refs as [|r rest IH]; intros req; cbn [fold_left].
  - rewrite app_nil_r. reflexivity.
  - rewrite IH. cbn [add_action actions]. rewrite <- app_assoc. reflexivity.
Qed.

Lemma json_options_fold_add_action refs req :
  json_options (fold_left (fun doc r => add_action r doc) refs req)
  = json_options req.
Proof.
  revert req. induction refs as [|r rest IH]; intros req; [reflexivity|].
  cbn [fold_left]. rewrite IH. reflexivity.
Qed.

Lemma run_wire sort refs objs (h : list RequestAction) :
  Forall2 (fun r o => wire_dict <$> (h !! r) = Some (wire_dict o)) refs objs ->
  snd (map_m (encode_action sort) refs h) = all_or_first_error (wire sort) objs.
Proof.
  revert objs h. induction refs as [|r rest IH]; intros objs h H.
  - apply Forall2_nil_inv_l in H as ->. reflexivity.
  - apply Forall2_cons_inv_l in H as (o & objs' & Ho & Hrest & ->).
    rewrite map_m_cons, encode_action_eq. cbn [all_or_first_error].
    destruct (h !! r) as [o'|] eqn:E; [|discriminate].
    cbn in Ho. injection Ho as Ho.
    assert (wire sort o' = wire sort o) as -> by (unfold wire; rewrite Ho; reflexivity).
    destruct (wire sort o) as [e|j]; [reflexivity|].
    assert (Forall2 (fun r0 o0 =>
              wire_dict <$> (<[r := serialized o']> h !! r0) = Some (wire_dict o0))
              rest objs') as H'.
    { eapply Forall2_impl; [exact Hrest|]. intros r0 o0 H0. cbn beta in *.
      rewrite <- H0. apply views_lookup. apply views_touch, E. }
    specialize (IH _ _ H').
    destruct (map_m _ rest _) as [h2 [e|js]]; cbn [snd] in *; rewrite <- IH; reflexivity.
Qed.

Lemma all_or_first_error_inr {A B : Type} (f : A -> exn + B) l ys :
  all_or_first_error f l = inr ys -> Forall2 (fun x y => f x = inr y) l ys.
Proof.
  revert ys. induction l as [|x r IH]; intros ys; cbn.
  - intros [= <-]. constructor.
  - destruct (f x) as [e|y] eqn:E; [discriminate|].
    destruct (all_or_first_error f r) as [e|ys']; [discriminate|].
    intros [= <-]. constructor; [exact E|]. apply IH. reflexivity.
Qed.

Lemma all_or_first_error_all {A B : Type} (f : A -> exn + B) l :
  Forall (fun x => exists y, f x = inr y) l ->
  exists ys, all_or_first_error f l = inr ys.
Proof.
  induction 1 as [|x r [y Hy] _ [ys IH]]; cbn.
  - eexists. reflexivity.
  - rewrite Hy, IH. eexists. reflexivity.
Qed.

(** C7: a document to which the actions [refs] were appended, in that
    order, serializes to the array of their wire representations, in that
    order: as long as the array as the actions, the i-th element for the
    i-th action.  (It raises what the first action that cannot be encoded
    raises.) *)
Theorem get_json_string_in_append_order
  (pretty sort : bool) (refs : list nat) (objs : list RequestAction)
  (h : list RequestAction) :
  Forall2 (fun r o => h !! r = Some o) refs objs ->
  let doc := fold_left (fun doc r => add_action r doc) refs
               (Request__init__ pretty sort) in
  snd (get_json_tree doc h)
  = match all_or_first_error (wire sort) objs with
    | inl e => inl e
    | inr js => inr (JArr js)
    end
  /\ snd (get_json_string doc h)
     = match all_or_first_error (wire sort) objs with
       | inl e => inl e
       | inr js => inr (Json.render (if pretty then Some 4 else None) 0 (JArr js))
       end
  /\ (Forall (fun o => exists j, wire sort o = inr j) objs ->
      exists js, snd (get_json_tree doc h) = inr (JArr js))
  /\ (forall js, snd (get_json_tree doc h) = inr (JArr js) ->
      length js = length refs
      /\ forall i o, objs !! i = Some o ->
           exists j, js !! i = Some j /\ wire sort o = inr j).
Proof.
  intros H doc.
  assert (snd (get_json_tree doc h)
          = match all_or_first_error (wire sort) objs with
            | inl e => inl e
            | inr js => inr (JArr js)
            end) as Ht.
  { rewrite get_json_tree_eq. unfold doc.
    rewrite actions_fold_add_action, json_options_fold_add_action.
    cbn [Request__init__ actions json_options sort_keys app].
    rewrite <- (run_wire sort refs objs h).
    - destruct (map_m _ refs h) as [h' [e|js]]; reflexivity.
    - eapply Forall2_impl; [exact H|]. intros r o ->. reflexivity. }
  split; [exact Ht|]. split; [|split].
  - rewrite get_json_string_eq.
    unfold doc at 2. rewrite json_options_fold_add_action.
    cbn [Request__init__ json_options indent].
    destruct (get_json_tree doc h) as [h' [e|j]]; cbn [snd] in *;
      destruct (all_or_first_error _ objs); try discriminate;
      injection Ht as ->; reflexivity.
  - intros Hall. rewrite Ht.
    destruct (all_or_first_error_all _ _ Hall) as [js ->]. eexists. reflexivity.
  - intros js Hjs. rewrite Ht in Hjs.
    destruct (all_or_first_error (wire sort) objs) as [e|js'] eqn:E; [discriminate|].
    injection Hjs as ->. apply all_or_first_error_inr in E.
    split.
    + rewrite (Forall2_length _ _ _ H). symmetry. exact (Forall2_length _ _ _ E).
    + intros i o Ho.
      destruct (Forall2_lookup_l _ _ _ _ _ E Ho) as (j & Hj & Hw).
      exists j. split; assumption.
Qed.

End Serialization.

(** ** Booleans on the wire *)

Section Booleans.
Import Request.

(** Induction on values, through lists and dictionaries. *)
Lemma pyval_induction (P : pyval -> Prop) :
  P VNone -> (forall b, P (VBool b)) -> (forall z, P (VInt z)) ->
  (forall s, P (VStr s)) ->
  (forall l, Forall P l -> P (VList l)) ->
  (forall l, Forall P l -> P (VTuple l)) ->
  (forall d, Forall (fun kv => P (snd kv)) d -> P (VDict d)) ->
  forall v, P v.
Proof.
  intros HNone HBool HInt HStr HList HTuple HDict.
  fix IH 1. intros [|b|z|s|l|l|d].
  - exact HNone.
  - apply HBool.
  - apply HInt.
  - apply HStr.
  - apply HList. induction l as [|x r IHl]; constructor; [apply IH|exact IHl].
  - apply HTuple. induction l as [|x r IHl]; constructor; [apply IH|exact IHl].
  - apply HDict. induction d as [|[k x] r IHd]; constructor; [apply IH|exact IHd].
Qed.










Lemma all_or_first_error_inl {A B : Type} (f : A -> exn + B) l e :
  all_or_first_error f l = inl e -> exists x, In x l /\ f x = inl e.
Proof.
  induction l as [|x r IH]; [discriminate|]. cbn.
  destruct (f x) as [ex|y] eqn:Ex.
  - intros [= <-]. exists x. split; [left; reflexivity|exact Ex].
  - destruct (all_or_first_error f r) as [er|ys]; [|discriminate].
    intros [= <-]. destruct (IH eq_refl) as (x' & Hin & Hx').
    exists x'. split; [right; exact Hin|exact Hx'].
Qed.

(** The encoder fails in one way only. *)
Lemma encode_error v e : encode v = inl e -> e = TypeError_key_not_string.
Proof.
  revert e. induction v as [|b|z|s|l IH|l IH|d IH] using pyval_induction;
    intros e; cbn [encode]; try discriminate.
  - destruct b; discriminate.
  - destruct (all_or_first_error encode l) as [e'|js] eqn:E; [|discriminate].
    intros [= <-]. apply all_or_first_error_inl in E as (x & Hin & Hx).
    rewrite List.Forall_forall in IH. exact (IH x Hin _ Hx).
  - destruct (all_or_first_error encode l) as [e'|js] eqn:E; [|discriminate].
    intros [= <-]. apply all_or_first_error_inl in E as (x & Hin & Hx).
    rewrite List.Forall_forall in IH. exact (IH x Hin _ Hx).
  - destruct (all_or_first_error _ d) as [e'|ms] eqn:E; [|discriminate].
    intros [= <-]. apply all_or_first_error_inl in E as ([k x] & Hin & Hx).
    rewrite List.Forall_forall in IH. specialize (IH _ Hin). cbn [fst snd] in *.
    destruct (key_name k) as [ek|n] eqn:Ek.
    + injection Hx as <-. destruct k as [|b|z|s|ks]; try discriminate.
      * destruct b; discriminate.
      * cbn in Ek. congruence.
    + destruct (encode x) as [ex|jx] eqn:Ex; [|discriminate].
      injection Hx as <-. exact (IH _ eq_refl).
Qed.

End Booleans.

Section Documents.
Import Request.

Lemma run_objects sort refs (h : list RequestAction) js :
  snd (map_m (encode_action sort) refs h) = inr js ->
  exists objs, Forall2 (fun r o => h !! r = Some o) refs objs.
Proof.
  revert h js. induction refs as [|r rest IH]; intros h js.
  - intros _. exists []. constructor.
  - rewrite map_m_cons, encode_action_eq.
    destruct (h !! r) as [o|] eqn:E; [|discriminate].
    destruct (wire sort o) as [e|j]; [discriminate|].
    destruct (map_m _ rest _) as [h2 [e|js']] eqn:Er; [discriminate|].
    intros _.
    destruct (IH (<[r := serialized o]> h) js') as [objs Hobjs];
      [rewrite Er; reflexivity|].
    assert (Forall (fun r0 => exists o0, h !! r0 = Some o0) rest) as Hall.
    { apply List.Forall_forall. intros r0 Hin.
      apply list_elem_of_In, list_elem_of_lookup_1 in Hin as [i Hi].
      destruct (Forall2_lookup_l _ _ _ _ _ Hobjs Hi) as (o0 & _ & H0).
      apply lookup_lt_Some in H0. rewrite length_insert in H0.
      destruct (lookup_lt_is_Some_2 h r0 H0) as [o1 H1]. exists o1. exact H1. }
    clear -Hall E. induction rest as [|r0 rest IHr].
    + exists [o]. repeat constructor. exact E.
    + destruct (Forall_inv Hall) as [o0 H0].
      destruct (IHr (Forall_inv_tail Hall)) as [objs Hobjs].
      apply Forall2_cons_inv_l in Hobjs as (o1 & objs' & H1 & Hrest & ->).
      exists (o1 :: o0 :: objs'). repeat constructor; assumption.
Qed.


End Documents.

Section Examples.
Import Request.


(** C5, as the claim has it, fails: once a document that holds the action
    has been serialized, the action's own options have the key ["action"];
    and an option named [action] is stored under that key like any other. *)
Lemma serialization_stores_action :
  exists o,
    Talk (VStr "hello") = inr o
    /\ has_key "action" (options o) = false
    /\ (exists o',
          fst (get_json_string (add_action 0 (Request__init__ false false)) [o])
          = [o']
          /\ has_key "action" (options o') = true)
    /\ has_key "action"
         (options (calls [Call_add_option "action" (VStr "hangup")] o)) = true.
Proof.
  eexists. split; [vm_compute; reflexivity|].
  split; [reflexivity|]. split; [|reflexivity].
  eexists. split; [vm_compute; reflexivity|]. reflexivity.
Qed.

(** C5, amended: an action that a constructor returns has no option under
    the key ["action"], and it has none after any sequence of
    [add_option], [add_options], [add_lists], [add_dict] and
    [clear_options] calls, provided no option name among the keyword
    arguments and the calls is one that is filed under ["action"]; its
    kind stays what the constructor made it, and what the action is
    serialized from has the kind under ["action"]. *)
Theorem options_without_action
  (c : construction) (cs : list method_call) (o : RequestAction) :
  construct c = inr o ->
  Spec.avoid_action (dict_keys (construction_kwargs c)) = true ->
  forallb (fun m => Spec.avoid_action (call_names m)) cs = true ->
  has_key "action" (options o) = false
  /\ has_key "action" (options (calls cs o)) = false
  /\ action (calls cs o) = action o
  /\ dict_get "action" (wire_dict (calls cs o)) = Some (action o).
Proof.
  intros Hc Hkw Hcs.
  destruct (clean_construct c o Hkw Hc) as [a [Ha Hk]].
  destruct (clean_calls a cs o Hcs (conj Ha Hk)) as [Ha' Hk'].
  repeat split; try assumption.
  - congruence.
  - rewrite wire_dict_action. congruence.
Qed.

Lemma options_without_action_witness :
  has_key "action"
    (options (calls [Call_add_option "barge_in" (VBool true);
                     Call_clear_options;
                     Call_add_lists None true
                       [("event_url", VList [VStr "http://x"])]]
                {| action := VStr "talk";
                   options := [("text", VStr "hello"); ("bargeIn", VStr "false");
                               ("loop", VInt 1);
                               ("voiceName", VStr "Kimberly")] |}))
  = false.
Proof.
  apply (proj1 (proj2
           (options_without_action
              (New_Talk (VStr "hello") (VBool false) (VInt 1) (VStr "Kimberly") [])
              [Call_add_option "barge_in" (VBool true);
               Call_clear_options;
               Call_add_lists None true [("event_url", VList [VStr "http://x"])]]
              _ ltac:(vm_compute; reflexivity) ltac:(reflexivity)
              ltac:(reflexivity)))).
Defined.

Lemma get_json_string_in_append_order_witness :
  snd (get_json_tree
         (fold_left (fun doc r => add_action r doc) [1; 0; 1]
            (Request__init__ false false))
         [talk_hello; {| action := VStr "input"; options := [] |}])
  = inr (JArr [JObj [("action", JStr "input")];
               JObj [("text", JStr "hello"); ("bargeIn", JStr "true");
                     ("extra", JArr [JObj [("record", JStr "false")]]);
                     ("action", JStr "talk")];
               JObj [("action", JStr "input")]]).
Proof.
  apply (proj1 (get_json_string_in_append_order false false [1; 0; 1]
                  [{| action := VStr "input"; options := [] |}; talk_hello;
                   {| action := VStr "input"; options := [] |}]
                  [talk_hello; {| action := VStr "input"; options := [] |}]
                  ltac:(repeat constructor))).
Defined.

End Examples.

(** ** The optional HTTP response *)

Section Django.
Import Request.

Lemma no_ImportError_bind {St A B : Type} (m : M St A) (k : A -> M St B) :
  no_ImportError m -> (forall x, no_ImportError (k x)) -> no_ImportError (bind m k).
Proof.
  intros Hm Hk s. unfold bind. specialize (Hm s).
  destruct (m s) as [s' [e|x]]; [|apply Hk].
  cbn [snd] in *. congruence.
Qed.

Lemma no_ImportError_for_each {St A : Type} (l : list A) (body : A -> M St unit) :
  (forall x, no_ImportError (body x)) -> no_ImportError (for_each l body).
Proof.
  intros H. induction l as [|x r IH]; [discriminate|].
  cbn [for_each]. apply no_ImportError_bind; [apply H|intros _; exact IH].
Qed.

Lemma no_ImportError_add_option name value : no_ImportError (add_option name value).
Proof. intros s. rewrite add_option_eq. discriminate. Qed.

Lemma no_ImportError_add_options skip kwargs : no_ImportError (add_options skip kwargs).
Proof. intros s. rewrite add_options_returns. discriminate. Qed.

Lemma filter_items_error f l e :
  (forall x e', f x = inl e' -> e' <> ImportError_HttpResponse) ->
  filter_items f l = inl e -> e <> ImportError_HttpResponse.
Proof.
  intros Hf. induction l as [|x r IH]; [discriminate|]. cbn.
  destruct (f x) as [ex|b] eqn:Ex.
  - intros [= <-]. exact (Hf _ _ Ex).
  - destruct (filter_items f r) as [er|kept]; [|discriminate].
    intros [= <-]. apply IH. reflexivity.
Qed.

Lemma no_ImportError_add_lists sub_type skip kwargs :
  no_ImportError (add_lists sub_type skip kwargs).
Proof.
  apply no_ImportError_for_each. intros [name v].
  destruct (skip && is_None v); [discriminate|].
  apply no_ImportError_bind.
  - destruct sub_type as [t|]; [|discriminate].
    apply no_ImportError_bind.
    + intros s. unfold lift, py_filter. cbn [snd].
      destruct (py_iter v) as [e|items] eqn:Ei.
      * destruct v; try discriminate; cbn in Ei; injection Ei as <-; discriminate.
      * assert (forall x e', not_isinstance t x = inl e' ->
                               e' <> ImportError_HttpResponse) as Hf.
        { intros x e'. unfold not_isinstance, isinstance.
          destruct t as [c|[| | | |l|[|y l]|d]]; try discriminate;
            intros [= <-]; discriminate. }
        destruct (filter_items _ items) as [e|kept] eqn:Ef; [|discriminate].
        intros [= ->]. exact (filter_items_error _ _ _ Hf Ef eq_refl).
    + intros [|x l]; discriminate.
  - intros _. destruct (truthy v && _); [discriminate|apply no_ImportError_add_option].
Qed.

Lemma no_ImportError_add_dict skip kwargs : no_ImportError (add_dict skip kwargs).
Proof.
  apply no_ImportError_for_each. intros [name v].
  destruct (skip && is_None v); [discriminate|].
  destruct (truthy v && _); [discriminate|apply no_ImportError_add_option].
Qed.

Lemma no_ImportError_call c : no_ImportError (call c).
Proof.
  destruct c; cbn [call].
  - apply no_ImportError_add_option.
  - apply no_ImportError_add_options.
  - apply no_ImportError_add_lists.
  - apply no_ImportError_add_dict.
  - discriminate.
Qed.

Lemma pass_kwargs_error bound kwargs e :
  pass_kwargs bound kwargs = inl e -> e <> ImportError_HttpResponse.
Proof.
  induction kwargs as [|[k v] r IH]; [discriminate|]. cbn.
  destruct (existsb _ bound); [intros [= <-]; discriminate|exact IH].
Qed.

Lemma no_ImportError_lift_pass_kwargs {St : Type} bound kwargs :
  no_ImportError (@lift St _ (pass_kwargs bound kwargs)).
Proof.
  intros s. unfold lift. cbn [snd].
  destruct (pass_kwargs bound kwargs) as [e|u] eqn:E; [|discriminate].
  intros [= ->]. exact (pass_kwargs_error _ _ _ E eq_refl).
Qed.

Lemma no_ImportError__init__ a kwargs : no_ImportError (__init__ a kwargs).
Proof.
  unfold __init__. apply no_ImportError_bind; [discriminate|]. intros _.
  apply no_ImportError_bind; [apply no_ImportError_lift_pass_kwargs|].
  intros _. apply no_ImportError_add_options.
Qed.

Lemma no_ImportError_initializer c : no_ImportError (initializer c).
Proof.
  destruct c; cbn [initializer]; [apply no_ImportError__init__|..];
    unfold Record__init__, Conversation__init__, Connect__init__,
      Talk__init__, Stream__init__, Input__init__, super__init__; cbv zeta;
    repeat (first
      [ apply no_ImportError_add_lists
      | apply no_ImportError_add_options
      | apply no_ImportError__init__
      | apply no_ImportError_lift_pass_kwargs
      | apply no_ImportError_bind; [|intros _] ]).
Qed.

Lemma run_error sort refs (h : list RequestAction) e :
  snd (map_m (encode_action sort) refs h) = inl e ->
  e = NoSuchObject \/ e = TypeError_key_not_string.
Proof.
  revert h. induction refs as [|r rest IH]; intros h; [discriminate|].
  rewrite map_m_cons, encode_action_eq.
  destruct (h !! r) as [o|]; [|intros [= <-]; left; reflexivity].
  destruct (wire sort o) as [e'|j] eqn:Ew.
  - intros [= <-]. right. unfold wire, encode_with in Ew.
    exact (encode_error _ _ Ew).
  - specialize (IH (<[r := serialized o]> h)).
    destruct (map_m _ rest _) as [h2 [e'|js]]; [|discriminate].
    intros [= <-]. apply IH. reflexivity.
Qed.

(** C10: when importing django raises, the module still loads, with
    [HttpResponse] bound to [None]; [render] then raises its [ImportError],
    first thing and without touching the actions; no constructor, no
    method of an action and no plain serialization raises that exception;
    and with django present [render] wraps what [get_json_string]
    returns. *)
Theorem render_needs_django (req : Request) (h : list RequestAction) :
  HttpResponse ImportRaised = None
  /\ render (HttpResponse ImportRaised) req h = (h, inl ImportError_HttpResponse)
  /\ snd (get_json_string req h) <> inl ImportError_HttpResponse
  /\ (forall c, construct c <> inl ImportError_HttpResponse)
  /\ (forall c self, snd (call c self) <> inl ImportError_HttpResponse)
  /\ (forall cls,
        render (HttpResponse (Imported cls)) req h
        = match get_json_string req h with
          | (h', inl e) => (h', inl e)
          | (h', inr json_response) =>
              (h', inr (cls json_response "application/json"))
          end).
Proof.
  split; [reflexivity|]. split; [reflexivity|]. split; [|split; [|split]].
  - rewrite get_json_string_eq, get_json_tree_eq.
    destruct (map_m _ (actions req) h) as [h' [e|js]] eqn:E; [|discriminate].
    cbn [snd]. intros [= ->].
    destruct (run_error (sort_keys (json_options req)) (actions req) h
                ImportError_HttpResponse) as [H|H];
      [rewrite E; reflexivity|discriminate..].
  - intros c. unfold construct, new.
    pose proof (no_ImportError_initializer c {| action := VNone; options := [] |}) as H.
    destruct (initializer c _) as [s [e|u]]; [|discriminate].
    cbn [snd] in H. congruence.
  - intros c self. apply no_ImportError_call.
  - intros cls. unfold render, HttpResponse, bind, ret.
    destruct (get_json_string req h) as [h' [e|s]]; reflexivity.
Qed.

End Django.

(** ** Response actions *)

Section Responses.
Import Response.

Lemma update_self_options_shared self f st :
  all_share st ->
  update_self_options self f st
  = match instances st !! self with
    | None => (st, inl NoSuchObject)
    | Some _ => ({| ResponseAction_options := f (ResponseAction_options st);
                    instances := instances st |}, inr tt)
    end.
Proof.
  intros H. unfold update_self_options, the_instance, bind, get, put, ret, raise.
  destruct (instances st !! self) as [i|] eqn:E; [|reflexivity].
  assert (inst_options i = None) as ->; [|reflexivity].
  unfold all_share in H. rewrite List.Forall_forall in H. apply H.
  apply list_elem_of_In. eapply list_elem_of_lookup_2. exact E.
Qed.

Lemma all_share_update self f st :
  all_share st -> all_share (fst (update_self_options self f st)).
Proof.
  intros H. rewrite update_self_options_shared by exact H.
  destruct (instances st !! self); exact H.
Qed.

Lemma all_share_add_options self kwargs st :
  all_share st -> all_share (fst (add_options self kwargs st)).
Proof.
  revert st. induction kwargs as [|[k v] r IH]; intros st H; [exact H|].
  unfold add_options in *. cbn [for_each]. unfold bind at 1.
  pose proof (all_share_update self (dict_set (_snake_case_to_camel k) v) st H) as H1.
  unfold add_option. cbn [fst snd].
  destruct (update_self_options self _ st) as [st1 [e|u]]; cbn [fst] in *;
    [exact H1|apply IH, H1].
Qed.

Lemma the_instance_eq self st :
  the_instance self st
  = match instances st !! self with
    | Some i => (st, inr i)
    | None => (st, inl NoSuchObject)
    end.
Proof.
  unfold the_instance, bind, get, ret, raise.
  destruct (instances st !! self); reflexivity.
Qed.

Lemma self_options_eq self st :
  self_options self st
  = match instances st !! self with
    | Some i => (st, inr match inst_options i with
                         | Some d => d
                         | None => ResponseAction_options st
                         end)
    | None => (st, inl NoSuchObject)
    end.
Proof.
  unfold self_options, bind. rewrite the_instance_eq.
  destruct (instances st !! self); reflexivity.
Qed.

Lemma self_action_eq self st :
  self_action self st
  = match instances st !! self with
    | Some i => (st, inr match inst_action i with Some a => a | None => VNone end)
    | None => (st, inl NoSuchObject)
    end.
Proof.
  unfold self_action, bind. rewrite the_instance_eq.
  destruct (instances st !! self); reflexivity.
Qed.

Lemma all_share_perform op st : all_share st -> all_share (perform op st).
Proof.
  intros H. destruct op; cbn [perform].
  - unfold new_instance, bind, get, put, ret, all_share. cbn.
    apply Forall_app. split; [exact H|repeat constructor].
  - unfold __init__, bind. rewrite the_instance_eq.
    destruct (instances st !! self) as [i|] eqn:E; [|exact H].
    unfold all_share, get, put, raise. cbn. apply Forall_insert; [exact H|].
    cbn. unfold all_share in H. rewrite List.Forall_forall in H. apply H.
    apply list_elem_of_In. eapply list_elem_of_lookup_2. exact E.
  - apply all_share_update, H.
  - apply all_share_add_options, H.
  - apply all_share_update, H.
  - unfold __dict__, bind. rewrite self_options_eq.
    destruct (instances st !! self) as [i|] eqn:E; [|exact H].
    rewrite self_action_eq, E.
    destruct (match inst_options i with Some d => d | None => _ end); [exact H|].
    pose proof (all_share_update self
                  (dict_set "action" match inst_action i with
                                     | Some a => a
                                     | None => VNone
                                     end) st H) as H1.
    destruct (update_self_options self _ st) as [st1 [e|u]]; cbn [fst] in *;
      [exact H1|].
    rewrite self_options_eq. destruct (instances st1 !! self); exact H1.
Qed.

Lemma reachable_all_share st : reachable st -> all_share st.
Proof.
  induction 1 as [|st op _ IH]; [constructor|]. apply all_share_perform, IH.
Qed.

Lemma options_of_shared self st :
  all_share st -> self < length (instances st) ->
  options_of self st = Some (ResponseAction_options st).
Proof.
  intros H Hlt. unfold options_of, self_options, the_instance, bind, get, ret, raise.
  destruct (lookup_lt_is_Some_2 _ _ Hlt) as [i E]. rewrite E. cbn.
  assert (inst_options i = None) as ->; [|reflexivity].
  unfold all_share in H. rewrite List.Forall_forall in H. apply H.
  apply list_elem_of_In. eapply list_elem_of_lookup_2. exact E.
Qed.

(** C9: in whatever state a program has brought the class and its
    instances, the options of every instance are the one dictionary of
    the class: an option added through one instance is read, with its
    value, through every other (made before or after it), also through
    one made afterwards; and clearing the options through one instance
    leaves every one with none. *)
Theorem ResponseAction_options_shared (st : state) (self other : nat) :
  reachable st ->
  self < length (instances st) -> other < length (instances st) ->
  options_of other st = options_of self st
  /\ (forall name value,
        let st' := fst (add_option self name value st) in
        let shared := dict_set (_snake_case_to_camel name) value
                        (ResponseAction_options st) in
        options_of self st' = Some shared
        /\ options_of other st' = Some shared
        /\ dict_get (_snake_case_to_camel name) shared = Some value
        /\ snd (new_instance st') = inr (length (instances st'))
        /\ options_of (length (instances st')) (fst (new_instance st'))
           = Some shared)
  /\ options_of self (fst (clear_options self st)) = Some []
  /\ options_of other (fst (clear_options self st)) = Some [].
Proof.
  intros Hr Hs Ho. pose proof (reachable_all_share st Hr) as Hsh.
  destruct (lookup_lt_is_Some_2 _ _ Hs) as [i Ei].
  split; [|split; [|split]].
  - rewrite !options_of_shared by assumption. reflexivity.
  - intros name value st' shared.
    assert (st' = {| ResponseAction_options := shared;
                     instances := instances st |}) as Hst'.
    { unfold st', add_option. rewrite update_self_options_shared by exact Hsh.
      rewrite Ei. reflexivity. }
    assert (all_share st') as Hsh' by (rewrite Hst'; exact Hsh).
    split; [|split; [|split; [|split]]].
    + rewrite options_of_shared; rewrite Hst'; [reflexivity|exact Hsh|exact Hs].
    + rewrite options_of_shared; rewrite Hst'; [reflexivity|exact Hsh|exact Ho].
    + apply dict_get_set_eq.
    + reflexivity.
    + rewrite options_of_shared.
      * rewrite Hst'. reflexivity.
      * apply (all_share_perform Op_new), Hsh'.
      * unfold new_instance, bind, get, put, ret. cbn.
        rewrite length_app. cbn. lia.
  - unfold clear_options. rewrite update_self_options_shared, Ei by exact Hsh.
    cbn [fst]. rewrite options_of_shared; [reflexivity|exact Hsh|exact Hs].
  - unfold clear_options. rewrite update_self_options_shared, Ei by exact Hsh.
    cbn [fst]. rewrite options_of_shared; [reflexivity|exact Hsh|exact Ho].
Qed.

Lemma ResponseAction_options_shared_witness :
  options_of 1 two_responses = Some [("text", VStr "hello")]
  /\ options_of 0 (fst (add_option 1 "voice_name" (VStr "Amy") two_responses))
     = Some [("text", VStr "hello"); ("voiceName", VStr "Amy")]
  /\ options_of 0 (fst (clear_options 1 two_responses)) = Some [].
Proof.
  pose proof (ResponseAction_options_shared two_responses 1 0
                ltac:(repeat constructor) ltac:(vm_compute; lia)
                ltac:(vm_compute; lia)) as (H1 & H2 & _ & H3).
  split; [|split].
  - reflexivity.
  - exact (proj1 (proj2 (H2 "voice_name" (VStr "Amy")))).
  - exact H3.
Defined.

End Responses.

(* ===================================================================== *)
(** * Further properties of the code *)
(* ===================================================================== *)

Import Ext.

(** ** Wire keys *)

Section WireKeysMore.
Import Request.

Lemma to_upper_underscore c : Ascii.eqb (to_upper c) "_" = Ascii.eqb c "_".
Proof. destruct c as [[|] [|] [|] [|] [|] [|] [|] [|]]; reflexivity. Qed.

Lemma to_lower_underscore c : Ascii.eqb (to_lower c) "_" = Ascii.eqb c "_".
Proof. destruct c as [[|] [|] [|] [|] [|] [|] [|] [|]]; reflexivity. Qed.

Lemma lower_free s : free_of "_" (lower s) = free_of "_" s.
Proof.
  induction s as [|c r IH]; [reflexivity|].
  cbn [lower free_of]. rewrite to_lower_underscore, IH. reflexivity.
Qed.

Lemma title_from_free b s : free_of "_" (title_from b s) = free_of "_" s.
Proof.
  revert b. induction s as [|c r IH]; intros b; [reflexivity|].
  cbn [title_from free_of].
  destruct (is_lower c); [|destruct (is_upper c)]; cbn [free_of]; rewrite IH;
    destruct b; rewrite ?to_upper_underscore, ?to_lower_underscore; reflexivity.
Qed.

Lemma free_of_app sep a b :
  free_of sep (a ++ b) = free_of sep a && free_of sep b.
Proof.
  induction a as [|c r IH]; [reflexivity|].
  cbn [String.append free_of]. rewrite IH, andb_assoc. reflexivity.
Qed.

Lemma split_segments_free sep s : forallb (free_of sep) (split sep s) = true.
Proof.
  induction s as [|c r IH]; [reflexivity|]. cbn [split].
  destruct (Ascii.eqb c sep) eqn:E; [exact IH|].
  destruct (split sep r) as [|w ws]; cbn [forallb free_of] in *.
  - rewrite E. reflexivity.
  - rewrite E. exact IH.
Qed.

Lemma split_single sep s : length (split sep s) = 1 -> free_of sep s = true.
Proof.
  induction s as [|c r IH]; [reflexivity|]. cbn [split free_of].
  destruct (Ascii.eqb c sep).
  - cbn [length]. pose proof (split_nonempty sep r) as Hne.
    destruct (split sep r); [congruence|discriminate].
  - destruct (split sep r) as [|w ws] eqn:E; [intros _; exfalso;
      exact (split_nonempty _ _ E)|].
    cbn [length] in *. intros H. exact (IH H).
Qed.

Lemma join_empty_titles_free ws :
  forallb (free_of "_") ws = true ->
  free_of "_" (join_empty (List.map title ws)) = true.
Proof.
  induction ws as [|w r IH]; [reflexivity|]. cbn [forallb List.map join_empty fold_right].
  intros H. apply andb_prop in H as [Hw Hr].
  change (fold_right String.append EmptyString (List.map title r))
    with (join_empty (List.map title r)).
  rewrite free_of_app. unfold title. rewrite title_from_free, Hw. exact (IH Hr).
Qed.

(** A name without an underscore is lower-cased. *)
Lemma snake_case_to_camel_free n :
  free_of "_" n = true -> _snake_case_to_camel n = lower n.
Proof.
  intros H. unfold _snake_case_to_camel. rewrite (split_free _ _ H). reflexivity.
Qed.

(** X1: whatever the name, the key it is converted to has no underscore. *)
Theorem snake_case_to_camel_no_underscore (name : string) :
  free_of "_" (_snake_case_to_camel name) = true.
Proof.
  unfold _snake_case_to_camel.
  pose proof (split_segments_free "_" name) as Hs.
  destruct (split "_" name) as [|w0 [|w1 ws]] eqn:E.
  - exfalso. exact (split_nonempty _ _ E).
  - cbn. rewrite lower_free. apply split_single. rewrite E. reflexivity.
  - assert ((1 <? length (w0 :: w1 :: ws))%nat = true) as -> by reflexivity.
    cbn [andb hd tl]. cbn [forallb] in Hs.
    apply andb_prop in Hs as [H0 Hr].
    rewrite free_of_app, H0. apply join_empty_titles_free. exact Hr.
Qed.

(** X2: converting a key that is converted already lower-cases it: the
    conversion of [event_url] is [eventUrl], that of [eventUrl] is
    [eventurl].  A camelCase name given as option name loses its
    capitals. *)
Theorem snake_case_to_camel_twice (name : string) :
  _snake_case_to_camel (_snake_case_to_camel name)
  = lower (_snake_case_to_camel name)
  /\ (free_of "_" name = true -> _snake_case_to_camel name = lower name)
  /\ _snake_case_to_camel (_snake_case_to_camel "event_url") = "eventurl".
Proof.
  split; [|split].
  - apply snake_case_to_camel_free, snake_case_to_camel_no_underscore.
  - apply snake_case_to_camel_free.
  - reflexivity.
Qed.

Lemma snake_case_to_camel_twice_witness :
  _snake_case_to_camel "eventUrl" = "eventurl".
Proof.
  apply (proj1 (proj2 (snake_case_to_camel_twice "eventUrl"))). reflexivity.
Defined.

Lemma to_lower_fixed c : Ascii.eqb c (to_lower c) = negb (is_upper c).
Proof. destruct c as [[|] [|] [|] [|] [|] [|] [|] [|]]; reflexivity. Qed.

(** X3: [add_option] warns exactly when the name has an ASCII upper-case
    letter. *)
Theorem add_option_warns_upper (name : string) :
  add_option_warns name = has_upper name.
Proof.
  unfold add_option_warns. induction name as [|c r IH]; [reflexivity|].
  cbn [lower String.eqb has_upper]. rewrite to_lower_fixed.
  destruct (is_upper c); cbn [negb orb]; [reflexivity|exact IH].
Qed.

End WireKeysMore.

(** ** What the methods keep *)

Section Keeps.
Import Request.

Variable P : RequestAction -> Prop.
Hypothesis P_add_option : forall name value, keeps P (add_option name value).
Hypothesis P_clear : forall self, P self -> P (set_options [] self).

Lemma keeps_ret {A : Type} (x : A) : keeps P (ret x).
Proof. intros self H. exact H. Qed.

Lemma keeps_raise {A : Type} e : keeps P (@raise _ A e).
Proof. intros self H. exact H. Qed.

Lemma keeps_lift {A : Type} (r : exn + A) : keeps P (lift r).
Proof. intros self H. exact H. Qed.

Lemma keeps_bind {A B : Type} (m : M RequestAction A)
      (k : A -> M RequestAction B) :
  keeps P m -> (forall x, keeps P (k x)) -> keeps P (bind m k).
Proof.
  intros Hm Hk self H. unfold bind. specialize (Hm self H).
  destruct (m self) as [s [e|x]]; cbn in *; [exact Hm|].
  apply Hk, Hm.
Qed.

Lemma keeps_for_each {A : Type} (l : list A) (body : A -> M RequestAction unit) :
  (forall x, keeps P (body x)) -> keeps P (for_each l body).
Proof.
  intros H. induction l as [|x r IH]; [apply keeps_ret|].
  cbn [for_each]. apply keeps_bind; [apply H|intros _; exact IH].
Qed.

Lemma keeps_add_options skip kwargs : keeps P (add_options skip kwargs).
Proof.
  apply keeps_for_each. intros [k v].
  destruct (skip && is_None v); [apply keeps_ret|apply P_add_option].
Qed.

Lemma keeps_add_lists sub_type skip kwargs :
  keeps P (add_lists sub_type skip kwargs).
Proof.
  apply keeps_for_each. intros [k v].
  destruct (skip && is_None v); [apply keeps_ret|].
  apply keeps_bind.
  - destruct sub_type as [t|]; [|apply keeps_ret].
    apply keeps_bind; [apply keeps_lift|].
    intros [|x l]; [apply keeps_ret|apply keeps_raise].
  - intros _. destruct (truthy v && _); [apply keeps_raise|apply P_add_option].
Qed.

Lemma keeps_add_dict skip kwargs : keeps P (add_dict skip kwargs).
Proof.
  apply keeps_for_each. intros [k v].
  destruct (skip && is_None v); [apply keeps_ret|].
  destruct (truthy v && _); [apply keeps_raise|apply P_add_option].
Qed.

Lemma keeps_call c : keeps P (call c).
Proof.
  destruct c; cbn [call].
  - apply P_add_option.
  - apply keeps_add_options.
  - apply keeps_add_lists.
  - apply keeps_add_dict.
  - intros self H. apply P_clear, H.
Qed.

Lemma keeps_calls cs self : P self -> P (calls cs self).
Proof.
  revert self. induction cs as [|c r IH]; intros self H; [exact H|].
  cbn [calls]. apply IH, keeps_call, H.
Qed.

(** The initializer of the base class, from the point where it has bound
    the attributes. *)
Lemma keeps__init__ a kwargs self :
  P {| action := a; options := [] |} -> P (fst (__init__ a kwargs self)).
Proof.
  intros H0. unfold __init__, bind at 1, put.
  apply (keeps_bind (lift (pass_kwargs ["self"; "skip_none_value"] kwargs))
           (fun _ => add_options false kwargs)); [apply keeps_lift| |exact H0].
  intros _. apply keeps_add_options.
Qed.

(** An instance that a constructor returns is in [P], if the bare instance
    of its kind is. *)
Lemma keeps_construct c o :
  P {| action := kind c; options := [] |} -> construct c = inr o -> P o.
Proof.
  intros H0. unfold construct, new.
  destruct (initializer c _) as [self [e|[]]] eqn:E; [discriminate|].
  intros [= <-].
  assert (self = fst (initializer c {| action := VNone; options := [] |}))
    as Hself by (rewrite E; reflexivity).
  assert (snd (initializer c {| action := VNone; options := [] |}) = inr tt)
    as Hret by (rewrite E; reflexivity).
  clear E. subst self.
  destruct c; cbn [initializer kind] in *;
    try (apply keeps__init__; exact H0);
    unfold Record__init__, Conversation__init__, Connect__init__,
      Talk__init__, Stream__init__, Input__init__, super__init__ in *;
    cbv zeta in *.
  all: match goal with
       | H : snd (bind (bind (lift ?p) ?k) ?k2 ?s) = _ |- _ =>
           unfold bind at 1, bind at 1, lift in H;
           unfold bind at 1, bind at 1, lift;
           destruct p as [e|[]]; [discriminate|]
       end.
  all: match goal with
       | |- P (fst (match __init__ ?k ?kw ?s with _ => _ end)) =>
           pose proof (keeps__init__ k kw s H0) as Hc;
           destruct (__init__ k kw s) as [s1 [e|[]]]; cbn [fst] in Hc;
           [exact Hc|]
       end.
  all: match goal with
       | |- P (fst (?m ?s)) =>
           cut (keeps P m); [intros Hk; exact (Hk s Hc)|]
       end.
  all: repeat (first
         [ apply keeps_add_lists
         | apply keeps_add_options
         | apply keeps_bind; [|intros _] ]).
Qed.

End Keeps.

(** ** Invariants of an action *)

Section ActionInvariants.
Import Request.

Lemma option_key_no_underscore name : free_of "_" (option_key name) = true.
Proof. apply snake_case_to_camel_no_underscore. Qed.

Lemma dict_keys_set_free k v (d : dict) :
  free_of "_" k = true ->
  forallb (free_of "_") (dict_keys d) = true ->
  forallb (free_of "_") (dict_keys (dict_set k v d)) = true.
Proof.
  intros Hk. induction d as [|[k' v'] r IH]; cbn.
  - intros _. rewrite Hk. reflexivity.
  - intros H. apply andb_prop in H as [H1 H2].
    destruct (String.eqb k k'); cbn; [rewrite Hk|rewrite H1]; auto.
Qed.

Lemma camel_keys_add_option name value : keeps camel_keys (add_option name value).
Proof.
  intros self H. rewrite add_option_eq. unfold camel_keys in *.
  cbn [fst set_options options]. apply dict_keys_set_free; [|exact H].
  apply option_key_no_underscore.
Qed.

Lemma camel_keys_serialized self : camel_keys self -> camel_keys (serialized self).
Proof.
  intros H. rewrite serialized_eq. destruct (options self) as [|p l] eqn:E; [exact H|].
  unfold camel_keys in *. cbn [set_options options]. rewrite <- E.
  apply dict_keys_set_free; [reflexivity|exact H].
Qed.

(** X4: no key of the option bag of an action ever has an underscore:
    not when a constructor returns it, whatever the extra keyword
    arguments, not after any sequence of method calls, and not after it
    has been serialized. *)
Theorem option_keys_no_underscore
  (c : construction) (cs : list method_call) (o : RequestAction) :
  construct c = inr o ->
  forallb (free_of "_") (dict_keys (options o)) = true
  /\ forallb (free_of "_") (dict_keys (options (calls cs o))) = true
  /\ forallb (free_of "_") (dict_keys (options (serialized (calls cs o)))) = true
  /\ forallb (free_of "_") (dict_keys (wire_dict (calls cs o))) = true.
Proof.
  intros Hc.
  assert (camel_keys o) as Ho.
  { apply (keeps_construct camel_keys camel_keys_add_option c o);
      [reflexivity|exact Hc]. }
  assert (camel_keys (calls cs o)) as Hcs.
  { apply (keeps_calls camel_keys camel_keys_add_option (fun _ _ => eq_refl)).
    exact Ho. }
  split; [exact Ho|]. split; [exact Hcs|]. split.
  - apply camel_keys_serialized, Hcs.
  - rewrite wire_dict_eq. apply dict_keys_set_free; [reflexivity|exact Hcs].
Qed.

Lemma option_keys_no_underscore_witness :
  dict_keys
    (options (calls [Call_add_option "machine_detection" (VStr "hangup")]
                {| action := VStr "talk";
                   options := [("endOnKey", VStr "#"); ("text", VStr "hello");
                               ("bargeIn", VStr "false"); ("loop", VInt 1);
                               ("voiceName", VStr "Kimberly")] |}))
  = ["endOnKey"; "text"; "bargeIn"; "loop"; "voiceName"; "machineDetection"]
  /\ forallb (free_of "_")
       (dict_keys
          (options (calls [Call_add_option "machine_detection" (VStr "hangup")]
                      {| action := VStr "talk";
                         options := [("endOnKey", VStr "#");
                                     ("text", VStr "hello");
                                     ("bargeIn", VStr "false"); ("loop", VInt 1);
                                     ("voiceName", VStr "Kimberly")] |})))
     = true.
Proof.
  split; [reflexivity|].
  apply (proj1 (proj2
           (option_keys_no_underscore
              (New_Talk (VStr "hello") (VBool false) (VInt 1) (VStr "Kimberly")
                 [("end_on_key", VStr "#")])
              [Call_add_option "machine_detection" (VStr "hangup")] _
              ltac:(vm_compute; reflexivity)))).
Defined.

End ActionInvariants.

(** ** Constructors and option methods *)

Section ConstructorsMore.
Import Request.

Lemma action_add_option a name value :
  keeps (fun self => action self = a) (add_option name value).
Proof. intros self H. rewrite add_option_eq. exact H. Qed.

(** X5: the kind of an action is the one its class gives it (for the base
    class, the one asked for), and no method call and no serialization
    changes it. *)
Theorem action_kind_fixed
  (c : construction) (cs : list method_call) (o : RequestAction) :
  construct c = inr o ->
  action o = kind c
  /\ action (calls cs o) = kind c
  /\ action (serialized (calls cs o)) = kind c.
Proof.
  intros Hc.
  assert (action o = kind c) as Ho.
  { apply (keeps_construct (fun self => action self = kind c)
             (action_add_option (kind c)) c o); [reflexivity|exact Hc]. }
  assert (action (calls cs o) = kind c) as Hcs.
  { apply (keeps_calls (fun self => action self = kind c)
             (action_add_option (kind c)) (fun _ H => H)). exact Ho. }
  split; [exact Ho|]. split; [exact Hcs|].
  rewrite serialized_eq. destruct (options (calls cs o)); exact Hcs.
Qed.

Lemma action_kind_fixed_witness :
  action (calls [Call_clear_options; Call_add_option "loop" (VInt 2)]
            {| action := VStr "input";
               options := [("timeOut", VInt 3); ("submitOnHash", VStr "false");
                           ("eventMethod", VStr "POST")] |})
  = VStr "input".
Proof.
  apply (proj1 (proj2
           (action_kind_fixed
              (New_Input VNone (VInt 3) VNone (VBool false) (VStr "POST") [])
              [Call_clear_options; Call_add_option "loop" (VInt 2)] _
              ltac:(vm_compute; reflexivity)))).
Defined.

Lemma add_options_cons skip k v r self :
  add_options skip ((k, v) :: r) self
  = add_options skip r
      (if skip && is_None v then self
       else set_options (dict_set (option_key k) (stored v) (options self)) self).
Proof.
  unfold add_options. cbn [for_each]. unfold bind at 1.
  destruct (skip && is_None v); [reflexivity|].
  rewrite add_option_eq. reflexivity.
Qed.

(** X6: after [add_options], a key holds the value of the last keyword
    argument filed under it that was not skipped ([None] is skipped when
    [skip_none_value] is set, a boolean is stored as a string), and what
    it held before if there is no such argument. *)
Theorem add_options_last_write
  (skip : bool) (kwargs : dict) (self : RequestAction) (K : string) :
  dict_get K (options (fst (add_options skip kwargs self)))
  = match written skip kwargs K with
    | Some w => Some w
    | None => dict_get K (options self)
    end.
Proof.
  revert self. induction kwargs as [|[k v] r IH]; intros self; [reflexivity|].
  rewrite add_options_cons, IH. cbn [written].
  destruct (written skip r K) as [w|]; [reflexivity|].
  destruct (skip && is_None v); cbn [negb andb options set_options]; [reflexivity|].
  destruct (String.eqb (option_key k) K) eqn:E.
  - apply String.eqb_eq in E. subst K. apply dict_get_set_eq.
  - apply String.eqb_neq in E. apply dict_get_set_ne. exact E.
Qed.


Lemma options__init__ a kwargs self K :
  pass_kwargs ["self"; "skip_none_value"] kwargs = inr tt ->
  dict_get K (options (fst (__init__ a kwargs self))) = written false kwargs K.
Proof.
  intros Hp. unfold __init__, bind, put, lift. rewrite Hp.
  rewrite add_options_last_write. cbn [options dict_get].
  destruct (written false kwargs K); reflexivity.
Qed.



End ConstructorsMore.

Section ShapeChecks.
Import Request.

Lemma filter_items_class c l :
  filter_items (not_isinstance (SubClass c)) l
  = inr (List.filter (fun itm => negb (issubclass (class_of itm) c)) l).
Proof.
  induction l as [|x r IH]; [reflexivity|].
  cbn [filter_items List.filter]. rewrite IH.
  unfold not_isinstance, isinstance.
  destruct (negb (issubclass (class_of x) c)); reflexivity.
Qed.

Lemma filter_none_iff c l :
  List.filter (fun itm => negb (issubclass (class_of itm) c)) l = []
  <-> forallb (fun itm => issubclass (class_of itm) c) l = true.
Proof.
  induction l as [|x r IH]; [split; reflexivity|]. cbn.
  destruct (issubclass (class_of x) c); cbn; [exact IH|].
  split; discriminate.
Qed.

(** X8: a list given to [add_lists] with an element class is added, as it
    is, when every element is an instance of the class (so always when it
    is empty), and refused with [ValueError], nothing being added, when
    one element is not. *)
Theorem add_lists_element_check
  (c : pyclass) (skip : bool) (name : string) (l : list pyval)
  (self : RequestAction) :
  add_lists (Some (SubClass c)) skip [(name, VList l)] self
  = if forallb (fun itm => issubclass (class_of itm) c) l
    then (set_options (dict_set (option_key name) (VList l) (options self)) self,
          inr tt)
    else (self, inl (ValueError_list_of name (SubClass c))).
Proof.
  unfold add_lists. cbn [for_each]. rewrite bind_ret_unit.
  rewrite andb_false_r. unfold bind at 1, bind at 1, lift, py_filter.
  cbn [py_iter]. rewrite filter_items_class.
  destruct (forallb _ l) eqn:E.
  - rewrite (proj2 (filter_none_iff c l) E). cbn [ret class_of issubclass pyclass_eqb].
    rewrite andb_false_r. rewrite add_option_eq. reflexivity.
  - destruct (List.filter _ l) as [|x r] eqn:Ef; [|reflexivity].
    apply filter_none_iff in Ef. congruence.
Qed.

(** X9: [add_dict] tests for a list, not for a mapping: every mapping
    with at least one item is refused with [ValueError], nothing being
    added, and every list is added.  An empty mapping is added too. *)
Theorem add_dict_tests_for_list
  (skip : bool) (name : string) (self : RequestAction) :
  (forall kv d,
     add_dict skip [(name, VDict (kv :: d))] self
     = (self, inl (ValueError_not_dict name CDict)))
  /\ (forall l,
        add_dict skip [(name, VList l)] self
        = (set_options (dict_set (option_key name) (VList l) (options self)) self,
           inr tt))
  /\ add_dict skip [(name, VDict [])] self
     = (set_options (dict_set (option_key name) (VDict []) (options self)) self,
        inr tt).
Proof.
  split; [|split].
  - intros kv d. unfold add_dict. cbn [for_each]. rewrite bind_ret_unit.
    rewrite andb_false_r. reflexivity.
  - intros l. unfold add_dict. cbn [for_each]. rewrite bind_ret_unit.
    rewrite andb_false_r. cbn [class_of issubclass pyclass_eqb orb negb].
    rewrite andb_false_r, add_option_eq. reflexivity.
  - unfold add_dict. cbn [for_each]. rewrite bind_ret_unit.
    rewrite andb_false_r. cbn [truthy andb]. rewrite add_option_eq. reflexivity.
Qed.







End ShapeChecks.

(** ** Serialization, further *)

Section SerializationMore.
Import Request.

Lemma dict_set_same_iff k v (d : dict) :
  dict_set k v d = d <-> dict_get k d = Some v.
Proof.
  induction d as [|[k' v'] r IH]; cbn.
  - split; discriminate.
  - destruct (String.eqb k k') eqn:E.
    + apply String.eqb_eq in E. subst k'. split; intros H; congruence.
    + split.
      * intros H. injection H as H. apply IH, H.
      * intros H. f_equal. apply IH, H.
Qed.

(** X12: serializing an action changes its stored options exactly when
    it has options and they do not hold its kind under ["action"]
    already: an action without options is left as it is, any other ends
    up with the key ["action"] in its own options. *)
Theorem serialized_unchanged_iff (self : RequestAction) :
  (serialized self = self
   <-> options self = [] \/ dict_get "action" (options self) = Some (action self))
  /\ (options self <> [] ->
      dict_get "action" (options (serialized self)) = Some (action self))
  /\ (options self = [] -> options (serialized self) = []).
Proof.
  rewrite serialized_eq. destruct self as [a opts]. cbn [options action set_options].
  destruct opts as [|p l].
  - split; [|split]; [split; auto|congruence|reflexivity].
  - split; [|split].
    + split.
      * intros H. right. unfold set_options in H. cbn [action options] in H.
        injection H as H. apply dict_set_same_iff, H.
      * intros [H|H]; [discriminate|]. unfold set_options. cbn [action options].
        f_equal. apply dict_set_same_iff, H.
    + intros _. apply dict_get_set_eq.
    + discriminate.
Qed.

Lemma serialized_unchanged_iff_witness :
  options (serialized {| action := VStr "input"; options := [] |}) = []
  /\ dict_get "action"
       (options (serialized {| action := VStr "talk";
                               options := [("text", VStr "hello")] |}))
     = Some (VStr "talk").
Proof.
  split.
  - apply (proj2 (proj2 (serialized_unchanged_iff
                           {| action := VStr "input"; options := [] |}))).
    reflexivity.
  - apply (proj1 (proj2 (serialized_unchanged_iff
                           {| action := VStr "talk";
                              options := [("text", VStr "hello")] |}))).
    discriminate.
Defined.



Lemma forallb_map_comp {A B : Type} (p : B -> bool) (f : A -> B) l :
  forallb p (List.map f l) = forallb (fun x => p (f x)) l.
Proof. induction l as [|x r IH]; [reflexivity|]. cbn. rewrite IH. reflexivity. Qed.










Lemma map_Forall_eq {A B : Type} (f g : A -> B) l :
  Forall (fun x => f x = g x) l -> List.map f l = List.map g l.
Proof. induction 1 as [|x r Hx _ IH]; [reflexivity|]. cbn. rewrite Hx, IH. reflexivity. Qed.

(** X14: [normalize_dict] leaves no boolean behind, at any depth (keys
    apart, which it does not look at), turns tuples into lists, and
    applied to its own result changes nothing. *)
Theorem normalize_dict_idempotent (v : pyval) :
  normalize_dict (normalize_dict v) = normalize_dict v
  /\ bool_free (normalize_dict v) = true
  /\ (forall l, normalize_dict v <> VTuple l).
Proof.
  split; [|split].
  - induction v as [|b|z|s|l IH|l IH|d IH] using pyval_induction; try reflexivity.
    + cbn [normalize_dict]. f_equal. rewrite List.map_map. apply map_Forall_eq, IH.
    + cbn [normalize_dict]. f_equal. rewrite List.map_map. apply map_Forall_eq, IH.
    + cbn [normalize_dict]. f_equal. rewrite List.map_map. cbn [fst snd].
      apply map_Forall_eq. eapply Forall_impl; [exact IH|].
      intros [k x] H. cbn [fst snd] in *. rewrite H. reflexivity.
  - induction v as [|b|z|s|l IH|l IH|d IH] using pyval_induction; try reflexivity.
    + cbn [normalize_dict bool_free]. rewrite forallb_map_comp.
      apply forallb_forall. rewrite List.Forall_forall in IH. exact IH.
    + cbn [normalize_dict bool_free]. rewrite forallb_map_comp.
      apply forallb_forall. rewrite List.Forall_forall in IH. exact IH.
    + cbn [normalize_dict bool_free]. rewrite forallb_map_comp. cbn [snd].
      apply forallb_forall. rewrite List.Forall_forall in IH. exact IH.
  - intros l. destruct v; discriminate.
Qed.

(** X15: an action that was appended to a document several times is
    written the same at each of its places, although the first of them
    is where serialization stores the key ["action"] in it. *)
Theorem same_action_same_element
  (req : Request) (h : list RequestAction) (js : list json) (i k r : nat) :
  snd (get_json_tree req h) = inr (JArr js) ->
  actions req !! i = Some r -> actions req !! k = Some r ->
  js !! i = js !! k /\ exists j, js !! i = Some j.
Proof.
  intros Hj Hi Hk. rewrite get_json_tree_eq in Hj.
  set (sort := sort_keys (json_options req)) in *.
  destruct (map_m (encode_action sort) (actions req) h) as [h' [e|js']] eqn:E;
    [discriminate|].
  cbn [snd] in Hj. injection Hj as ->.
  assert (snd (map_m (encode_action sort) (actions req) h) = inr js) as E'
    by (rewrite E; reflexivity).
  destruct (run_objects _ _ _ _ E') as [objs Hobjs].
  rewrite (run_wire sort (actions req) objs h) in E'.
  2:{ eapply Forall2_impl; [exact Hobjs|]. intros r0 o ->. reflexivity. }
  apply all_or_first_error_inr in E'.
  destruct (Forall2_lookup_l _ _ _ _ _ Hobjs Hi) as (o1 & Ho1 & Hr1).
  destruct (Forall2_lookup_l _ _ _ _ _ Hobjs Hk) as (o2 & Ho2 & Hr2).
  assert (o2 = o1) as -> by congruence.
  destruct (Forall2_lookup_l _ _ _ _ _ E' Ho1) as (j1 & Hj1 & Hw1).
  destruct (Forall2_lookup_l _ _ _ _ _ E' Ho2) as (j2 & Hj2 & Hw2).
  assert (j2 = j1) as -> by congruence.
  split; [congruence|]. exists j1. exact Hj1.
Qed.

Lemma same_action_same_element_witness :
  exists js,
    snd (get_json_tree
           (add_action 0 (add_action 0 (Request__init__ false false)))
           [Inv.talk_hello]) = inr (JArr js)
    /\ js !! 0 = js !! 1.
Proof.
  eexists. split; [vm_compute; reflexivity|].
  apply (proj1 (same_action_same_element
                  (add_action 0 (add_action 0 (Request__init__ false false)))
                  [Inv.talk_hello] _ 0 1 0
                  ltac:(vm_compute; reflexivity) ltac:(reflexivity)
                  ltac:(reflexivity))).
Defined.

End SerializationMore.

(** ** Response actions and documents, further *)

Section ResponsesMore.
Import Response.



(** X17: the method [__dict__] writes into the options it returns: once
    the class has an option, calling it on one instance puts that
    instance's action under ["action"] in the options of every instance;
    while the class has no option, it changes nothing. *)
Theorem ResponseAction__dict__shared
  (st : state) (self other : nat) (a : pyval) :
  reachable st ->
  self < length (instances st) -> other < length (instances st) ->
  snd (self_action self st) = inr a ->
  (ResponseAction_options st = [] ->
     __dict__ self st = (st, inr [("action", a)]))
  /\ (ResponseAction_options st <> [] ->
      snd (__dict__ self st)
      = inr (dict_set "action" a (ResponseAction_options st))
      /\ options_of other (fst (__dict__ self st))
         = Some (dict_set "action" a (ResponseAction_options st))
      /\ dict_get "action" (dict_set "action" a (ResponseAction_options st))
         = Some a).
Proof.
  intros Hr Hs Ho Ha. pose proof (reachable_all_share st Hr) as Hsh.
  destruct (lookup_lt_is_Some_2 _ _ Hs) as [i Ei].
  assert (inst_options i = None) as Hi.
  { unfold Inv.all_share in Hsh. rewrite List.Forall_forall in Hsh. apply Hsh.
    apply list_elem_of_In. eapply list_elem_of_lookup_2. exact Ei. }
  rewrite self_action_eq, Ei in Ha. cbn [snd] in Ha. injection Ha as Ha.
  unfold __dict__, bind. rewrite self_options_eq, Ei, Hi.
  rewrite self_action_eq, Ei, Ha.
  split.
  - intros ->. reflexivity.
  - intros Hne. destruct (ResponseAction_options st) as [|p l] eqn:E; [congruence|].
    rewrite update_self_options_shared by exact Hsh. rewrite Ei.
    rewrite self_options_eq. cbn [instances]. rewrite Ei, Hi.
    cbn [fst snd ResponseAction_options]. rewrite E.
    split; [reflexivity|]. split; [|apply dict_get_set_eq].
    rewrite options_of_shared; [reflexivity|exact Hsh|exact Ho].
Qed.

Lemma ResponseAction__dict__shared_witness :
  options_of 1 (fst (__dict__ 0 Inv.two_responses))
  = Some [("text", VStr "hello"); ("action", VNone)].
Proof.
  apply (proj1 (proj2 (proj2 (ResponseAction__dict__shared Inv.two_responses 0 1 VNone
                         ltac:(repeat constructor) ltac:(vm_compute; lia)
                         ltac:(vm_compute; lia) ltac:(reflexivity))
                       ltac:(discriminate)))).
Defined.

Lemma dumps_items_first o l :
  dumps_items (o :: l) = inl (TypeError_not_JSON_serializable o).
Proof. reflexivity. Qed.

(** X18: a response document serializes only while it is empty (to
    ["[]"], pretty or not): with an action in it, [get_json_string]
    raises [TypeError] for the first action, whatever that action is,
    as no encoder for actions is given to [json.dumps]. *)
Theorem Response_get_json_string_needs_empty (doc : ResponseDoc) :
  (response_actions doc = [] -> Response_get_json_string doc = inr "[]")
  /\ (forall o, exists first,
        Response_get_json_string (Response_add_action o doc)
        = inl (TypeError_not_JSON_serializable first)
        /\ hd_error (response_actions doc ++ [o])%list = Some first)
  /\ (forall text, Response_get_json_string doc = inr text ->
        response_actions doc = [] /\ text = "[]").
Proof.
  split; [|split].
  - intros H. unfold Response_get_json_string. rewrite H.
    destruct (pretty doc); reflexivity.
  - intros o. unfold Response_get_json_string, Response_add_action.
    cbn [response_actions].
    destruct (response_actions doc) as [|f l]; [exists o|exists f];
      split; reflexivity.
  - intros text. unfold Response_get_json_string.
    destruct (response_actions doc) as [|f l]; [|discriminate].
    destruct (pretty doc); intros [= <-]; split; reflexivity.
Qed.

Lemma Response_get_json_string_needs_empty_witness :
  Response_get_json_string (Response__init__ true) = inr "[]".
Proof.
  apply (proj1 (Response_get_json_string_needs_empty (Response__init__ true))).
  reflexivity.
Defined.

End ResponsesMore.

(** ** Named parameters of the kinds *)

Section NamedParameters.
Import Request.

Lemma add_lists_plain skip name v self :
  add_lists None skip [(name, v)] self
  = if skip && is_None v then (self, inr tt)
    else if truthy v && negb (issubclass (class_of v) CList)
         then (self, inl (ValueError_not_list name (class_of v)))
         else (set_options (dict_set (option_key name) (stored v) (options self)) self,
               inr tt).
Proof.
  unfold add_lists. cbn [for_each]. rewrite bind_ret_unit.
  destruct (skip && is_None v); [reflexivity|].
  unfold bind at 1. cbn [ret].
  destruct (truthy v && _); [reflexivity|]. rewrite add_option_eq. reflexivity.
Qed.





Lemma written_absent skip kwargs K :
  ~ In K (List.map option_key (dict_keys kwargs)) -> written skip kwargs K = None.
Proof.
  induction kwargs as [|[k v] r IH]; [reflexivity|]. cbn.
  intros H. rewrite IH by tauto.
  destruct (String.eqb (option_key k) K) eqn:E.
  - apply String.eqb_eq in E. tauto.
  - rewrite andb_false_r. reflexivity.
Qed.

(** With keyword arguments filed under different keys, each is what is
    written under its key. *)
Lemma written_distinct skip kwargs k v :
  List.NoDup (List.map option_key (dict_keys kwargs)) -> In (k, v) kwargs ->
  written skip kwargs (option_key k)
  = if skip && is_None v then None else Some (stored v).
Proof.
  induction kwargs as [|[k0 v0] r IH]; [contradiction|].
  cbn [dict_keys List.map fst written]. intros Hnd Hin.
  apply List.NoDup_cons_iff in Hnd as [Hnotin Hnd].
  destruct Hin as [Hin|Hin].
  - injection Hin as -> ->. rewrite written_absent by exact Hnotin.
    rewrite String.eqb_refl, andb_true_r.
    destruct (skip && is_None v); reflexivity.
  - rewrite (IH Hnd Hin).
    destruct (skip && is_None v) eqn:E; [|reflexivity].
    destruct (String.eqb (option_key k0) (option_key k)) eqn:E'.
    + apply String.eqb_eq in E'. exfalso. apply Hnotin. rewrite E'.
      apply in_map. apply (in_map fst) in Hin. exact Hin.
    + rewrite andb_false_r. reflexivity.
Qed.

(** X20: a named parameter of [Record] other than [event_url] that is
    given (not [None]) is the option under its camelCase key, a boolean
    as a string; one that is left [None] adds nothing, so that the key
    holds what an extra keyword argument filed under it put there
    ([None] included), if any. *)
Theorem Record_named_parameters
  (event_url event_method format end_on_silence end_on_key time_out
   beep_start : pyval) (kwargs : dict) (o : RequestAction) :
  construct (New_Record event_url event_method format end_on_silence end_on_key
               time_out beep_start kwargs) = inr o ->
  forall name value,
    In (name, value)
       [("event_method", event_method); ("format", format);
        ("end_on_silence", end_on_silence); ("end_on_key", end_on_key);
        ("time_out", time_out); ("beep_start", beep_start)] ->
    dict_get (option_key name) (options o)
    = if is_None value then written false kwargs (option_key name)
      else Some (stored value).
Proof.
  unfold construct, new, initializer, Record__init__, super__init__. cbv zeta.
  unfold bind at 1, bind at 1, lift.
  destruct (pass_kwargs ["self"; "action"] kwargs) as [e|[]] eqn:H1; [discriminate|].
  destruct (pass_kwargs ["self"; "skip_none_value"] kwargs) as [e|[]] eqn:H2.
  { unfold __init__, bind, put, lift. rewrite H2. discriminate. }
  pose proof (fun K => options__init__ (VStr "record") kwargs
                         {| action := VNone; options := [] |} K H2) as Hi.
  destruct (__init__ _ kwargs _) as [s1 [e|[]]]; [discriminate|].
  cbn [fst] in Hi. unfold bind at 1. rewrite add_lists_plain.
  set (named := [("event_method", event_method); ("format", format);
                 ("end_on_silence", end_on_silence); ("end_on_key", end_on_key);
                 ("time_out", time_out); ("beep_start", beep_start)]).
  assert (List.NoDup (List.map option_key (dict_keys named))) as Hnd.
  { change (List.map option_key (dict_keys named))
      with ["eventMethod"; "format"; "endOnSilence"; "endOnKey"; "timeOut";
            "beepStart"].
    repeat (apply List.NoDup_cons; [cbn; intuition discriminate|]).
    apply List.NoDup_nil. }
  assert (forall s2 name value,
            (forall K, K <> "eventUrl" ->
                       dict_get K (options s2) = written false kwargs K) ->
            In (name, value) named ->
            dict_get (option_key name) (options (fst (add_options true named s2)))
            = if is_None value then written false kwargs (option_key name)
              else Some (stored value)) as Hfinal.
  { intros s2 name value Hs2 Hin. rewrite add_options_last_write.
    rewrite (written_distinct true named name value Hnd Hin). cbn [andb].
    destruct (is_None value); [|reflexivity].
    apply Hs2. unfold named in Hin. cbn in Hin.
    decompose [or] Hin; try contradiction;
      match goal with H : (_, _) = (_, _) |- _ => injection H as <- _ end;
      discriminate. }
  destruct (true && is_None event_url);
    [|destruct (truthy event_url && _); [discriminate|]].
  - pose proof (add_options_returns true named s1) as Hr.
    specialize (Hfinal s1).
    destruct (add_options true named s1) as [s2 r2]. cbn [fst snd] in *. subst r2.
    intros [= <-] name value Hin. apply Hfinal; [|exact Hin].
    intros K _. apply Hi.
  - set (s1' := set_options _ s1).
    pose proof (add_options_returns true named s1') as Hr.
    specialize (Hfinal s1').
    destruct (add_options true named s1') as [s2 r2]. cbn [fst snd] in *. subst r2.
    intros [= <-] name value Hin. apply Hfinal; [|exact Hin].
    intros K HK. unfold s1'. cbn [options set_options].
    rewrite dict_get_set_ne; [apply Hi|]. intros Heq. apply HK. symmetry. exact Heq.
Qed.

Lemma Record_named_parameters_witness :
  dict_get "format"
    (options {| action := VStr "record";
                options := [("eventMethod", VStr "POST"); ("format", VStr "mp3")] |})
  = Some (VStr "mp3")
  /\ dict_get "beepStart"
       (options {| action := VStr "record";
                   options := [("eventMethod", VStr "POST"); ("format", VStr "mp3")] |})
     = None.
Proof.
  split.
  - apply (Record_named_parameters VNone (VStr "POST") (VStr "mp3") VNone VNone
             VNone VNone [] _ ltac:(vm_compute; reflexivity) "format" (VStr "mp3")).
    right. left. reflexivity.
  - apply (Record_named_parameters VNone (VStr "POST") (VStr "mp3") VNone VNone
             VNone VNone [] _ ltac:(vm_compute; reflexivity) "beep_start" VNone).
    do 5 right. left. reflexivity.
Defined.

End NamedParameters.
